(** * pastas.timeseries: the TimeSeries class, embedded and verified

    A shallow embedding of [pastas/timeseries.py].  The class manages one
    observational time series: it stores the series as supplied, validates
    it, and derives a series for simulation by changing its frequency,
    extending it to a window and normalising it.

    Layout:
    - values, timestamps, frequencies and policy values;
    - the outcome monad (cautions raised with [warn], exceptions);
    - the pandas operations the class calls, as list functions;
    - the helpers of [pastas.utils] ([get_dt], [get_time_offset]);
    - the methods of [TimeSeries], one definition per method;
    - the vocabulary of the properties, and the properties.

    Conventions.  A timestamp is a number of seconds since the epoch, a
    value is an IEEE binary64 float and a gap is NaN, as in pandas.  A
    [pd.Series] is the list of its rows in index order.  Frequencies are the
    fixed-interval offset aliases (a multiple of a day, hour, minute or
    second); anchored aliases (weeks, months, business days) are outside
    the model.  The argument of the constructor is a series by its type, so
    the assertion that opens [validate_series] holds.  Messages written
    with [print] go to standard output and are not part of the model;
    messages raised with [warn] are.

    pandas is modelled as the class was written against it (2017): an
    aggregate of a bin without a valid value is NaN, also for "sum";
    [resample(...).dropna()] takes the mean of each bin first;
    [sort_index] keeps rows with equal labels in their order; sums are
    taken from left to right. *)

From Stdlib Require Import ZArith List Bool Lia String.
From Stdlib Require Import Sorting.Sorted Sorting.Permutation.
From Stdlib Require Import PrimFloat Uint63.
Import ListNotations.
Local Open Scope Z_scope.

Set Implicit Arguments.

(* ================================================================== *)
(** ** Timestamps, values, frequencies, policies *)
(* ================================================================== *)

(** Timestamps are integers: seconds since the epoch. *)
Abbreviation Timestamp := Z (only parsing).

Definition day : Z := 86400.
Definition hour : Z := 3600.

(** Days since 1970-01-01 of a proleptic Gregorian date. *)
Definition days_from_civil (y m d : Z) : Z :=
  let y' := if m <=? 2 then y - 1 else y in
  let era := y' / 400 in
  let yoe := y' - era * 400 in
  let mp := (m + 9) mod 12 in
  let doy := (153 * mp + 2) / 5 + d - 1 in
  let doe := yoe * 365 + yoe / 4 - yoe / 100 + doy in
  era * 146097 + doe - 719468.

(** [pd.Timestamp('y-m-d hh:mm')]. *)
Definition timestamp (y m d hh mm : Z) : Timestamp :=
  days_from_civil y m d * day + hh * hour + mm * 60.

(** A row of a series: its index label and its value. *)
Definition Row : Type := Timestamp * float.
Definition Series : Type := list Row.

Definition index (s : Series) : list Timestamp := map fst s.
Definition values (s : Series) : list float := map snd s.

Definition isnull (v : float) : bool := PrimFloat.is_nan v.
Definition notnull (v : float) : bool := negb (isnull v).
Definition valid_row (r : Row) : bool := notnull (snd r).

Definition float_of_Z (z : Z) : float :=
  if z <? 0 then PrimFloat.opp (PrimFloat.of_uint63 (Uint63.of_Z (- z)))
  else PrimFloat.of_uint63 (Uint63.of_Z z).

Definition float_of_nat (n : nat) : float := float_of_Z (Z.of_nat n).

(** Units of the fixed-interval offset aliases: "D", "H", "T", "S". *)
Inductive Unit := Days | Hours | Minutes | Seconds.

(** A frequency string such as "D" or "12H": a multiplier and a unit. *)
Record Freq := mkFreq { mult : positive; alias : Unit }.

Definition unit_seconds (u : Unit) : Z :=
  match u with Days => 86400 | Hours => 3600 | Minutes => 60 | Seconds => 1 end.

(** The length of the interval, in seconds. *)
Definition freq_seconds (f : Freq) : Z := Z.pos (mult f) * unit_seconds (alias f).

(** The value a settings key holds: [None], a string, a [float], an [int],
    or a number of another type (a numpy scalar, a [bool]). *)
Inductive Policy :=
| PNone
| PStr (s : string)
| PFloat (v : float)
| PInt (n : Z)
| PObj (v : float).

(** [method == s] for a string literal [s]. *)
Definition is_str (method : Policy) (s : string) : bool :=
  match method with PStr s' => String.eqb s' s | _ => false end.

(** [method in l] for a list of string literals. *)
Definition in_strs (method : Policy) (l : list string) : bool :=
  existsb (is_str method) l.

(** [type(method) == float]. *)
Definition is_float (method : Policy) : option float :=
  match method with PFloat v => Some v | _ => None end.

(** Python truth value of a settings value. *)
Definition truthy (method : Policy) : bool :=
  match method with
  | PNone => false
  | PStr s => negb (String.eqb s "")
  | PFloat v => negb (PrimFloat.eqb v 0)
  | PInt n => negb (n =? 0)
  | PObj v => negb (PrimFloat.eqb v 0)
  end.

(* ================================================================== *)
(** ** Outcomes: a result with the cautions raised on the way, or an
       exception *)
(* ================================================================== *)

(** A caution raised with [warn].  [UnsupportedOption step method] is
    ['User-defined option for <step> <method> is not supported'], with the
    step name as the message has it; [UserFrequencyApplied name] is the
    caution of [validate_series]. *)
Inductive Caution :=
| UnsupportedOption (step : string) (method : Policy)
| UserFrequencyApplied (name : string).

Inductive Exn := ValueError | TypeError.

Inductive Outcome (A : Type) : Type :=
| Done (a : A) (cautions : list Caution)
| Raised (e : Exn).

Arguments Raised {A} e.

Definition ret {A} (a : A) : Outcome A := Done a [].

Definition bind {A B} (m : Outcome A) (k : A -> Outcome B) : Outcome B :=
  match m with
  | Done a w =>
      match k a with
      | Done b w' => Done b (w ++ w')
      | Raised e => Raised e
      end
  | Raised e => Raised e
  end.

Definition warn (c : Caution) : Outcome unit := Done tt [c].

Declare Scope outcome_scope.
Delimit Scope outcome_scope with outcome.
Notation "x <- m ;; k" := (bind m (fun x => k))
  (at level 61, m at next level, right associativity) : outcome_scope.
Notation "m ;;; k" := (bind m (fun _ => k))
  (at level 61, right associativity) : outcome_scope.
Local Open Scope outcome_scope.

(* ================================================================== *)
(** ** The pandas operations the class uses *)
(* ================================================================== *)

Module pd.

(** [series.sort_index()]: rows in ascending label order, rows with equal
    labels in their former order. *)
Fixpoint insert_row (r : Row) (s : Series) : Series :=
  match s with
  | [] => [r]
  | r' :: s' => if fst r <=? fst r' then r :: s else r' :: insert_row r s'
  end.

Definition sort_index (s : Series) : Series := fold_right insert_row [] s.

(** Sorted labels without repeats. *)
Fixpoint insert_label (t : Timestamp) (l : list Timestamp) : list Timestamp :=
  match l with
  | [] => [t]
  | x :: r =>
      if t <? x then t :: l
      else if t =? x then l
      else x :: insert_label t r
  end.

Definition sort_unique (l : list Timestamp) : list Timestamp :=
  fold_right insert_label [] l.

Fixpoint is_unique (l : list Timestamp) : bool :=
  match l with
  | [] => true
  | t :: r => negb (existsb (Z.eqb t) r) && is_unique r
  end.

Definition labels_eqb (a b : list Timestamp) : bool :=
  if list_eq_dec Z.eq_dec a b then true else false.

(** [index.min()] and [index.max()]; [None] is NaT, of an empty index. *)
Definition index_min (s : Series) : option Timestamp :=
  match index s with
  | [] => None
  | t :: r => Some (fold_left Z.min r t)
  end.

Definition index_max (s : Series) : option Timestamp :=
  match index s with
  | [] => None
  | t :: r => Some (fold_left Z.max r t)
  end.

(** [series.first_valid_index()], [series.last_valid_index()]. *)
Definition first_valid_index (s : Series) : option Timestamp :=
  option_map fst (find valid_row s).

Definition last_valid_index (s : Series) : option Timestamp :=
  option_map fst (find valid_row (rev s)).

(** [series.loc[a:b]] on a sorted index: the rows with a label from [a] to
    [b], both included; a bound [None] is open. *)
Definition in_slice (a b : option Timestamp) (t : Timestamp) : bool :=
  match a with Some lo => lo <=? t | None => true end &&
  match b with Some hi => t <=? hi | None => true end.

Definition loc (s : Series) (a b : option Timestamp) : Series :=
  filter (fun r => in_slice a b (fst r)) s.

Definition hasnans (s : Series) : bool := existsb isnull (values s).

(** Sum and count of the values that are not NaN. *)
Definition nansum (vs : list float) : float :=
  fold_left PrimFloat.add (filter notnull vs) 0%float.

Definition count (vs : list float) : nat := List.length (filter notnull vs).

(** [series.mean()]: NaN values are skipped; NaN when none is left. *)
Definition mean (s : Series) : float :=
  PrimFloat.div (nansum (values s)) (float_of_nat (count (values s))).

(** [series.fillna(v)]. *)
Definition fillna (v : float) (s : Series) : Series :=
  map (fun r => (fst r, if isnull (snd r) then v else snd r)) s.

(** [series.dropna()]. *)
Definition dropna (s : Series) : Series := filter valid_row s.

(** [series.subtract(v)]. *)
Definition subtract (v : float) (s : Series) : Series :=
  map (fun r => (fst r, PrimFloat.sub (snd r) v)) s.

(** [series.interpolate(method='time')]: a NaN between two valid rows takes
    the value of the line through them at its label; NaN before the first
    valid row stays; NaN after the last valid row takes the last value. *)
Definition interp_at (lo hi : Row) (t : Timestamp) : float :=
  let slope := PrimFloat.div (PrimFloat.sub (snd hi) (snd lo))
                             (float_of_Z (fst hi - fst lo)) in
  PrimFloat.add (PrimFloat.mul slope (float_of_Z (t - fst lo))) (snd lo).

Fixpoint interpolate_from (prev : option Row) (s : Series) : Series :=
  match s with
  | [] => []
  | r :: rest =>
      if isnull (snd r) then
        (fst r,
         match prev with
         | None => snd r
         | Some lo =>
             match find valid_row rest with
             | None => snd lo
             | Some hi => interp_at lo hi (fst r)
             end
         end) :: interpolate_from prev rest
      else r :: interpolate_from (Some r) rest
  end.

Definition interpolate_time (s : Series) : Series := interpolate_from None s.

(** [pd.date_range(start, end, freq)] for a fixed interval [dt]: [start],
    [start + dt], ... up to [end] included; empty when [end < start]. *)
Definition date_range (start stop : Timestamp) (dt : Z) : list Timestamp :=
  if stop <? start then []
  else map (fun k => start + Z.of_nat k * dt)
           (seq 0 (S (Z.to_nat ((stop - start) / dt)))).

(** [index.union(other)]: the other index when one is empty (or both are
    equal), else the sorted labels of both without repeats. *)
Definition union (a b : list Timestamp) : list Timestamp :=
  match b with
  | [] => a
  | _ :: _ =>
      if labels_eqb a b then a
      else match a with
           | [] => b
           | _ :: _ => sort_unique (a ++ b)
           end
  end.

(** The [method] argument of [reindex] and [asfreq]. *)
Inductive FillMethod := NoFill | FFill | BFill.

(** The value [reindex] gives the label [t]: the value of the row with
    that label; without one, NaN, or with [ffill] ([bfill]) the value of
    the last row before (first row after) it. *)
Definition at_label (s : Series) (m : FillMethod) (t : Timestamp) : float :=
  match find (fun r => fst r =? t) s with
  | Some r => snd r
  | None =>
      match m with
      | NoFill => PrimFloat.nan
      | FFill =>
          match find (fun r => fst r <? t) (rev s) with
          | Some r => snd r
          | None => PrimFloat.nan
          end
      | BFill =>
          match find (fun r => t <? fst r) s with
          | Some r => snd r
          | None => PrimFloat.nan
          end
      end
  end.

(** [series.reindex(idx, method=m)].  An index equal to the series' own
    gives a copy; otherwise a series whose index has repeated labels cannot
    be reindexed. *)
Definition reindex (s : Series) (idx : list Timestamp) (m : FillMethod)
  : Outcome Series :=
  if labels_eqb idx (index s) then ret s
  else if is_unique (index s)
       then ret (map (fun t => (t, at_label s m t)) idx)
       else Raised ValueError.

(** [series.asfreq(freq, method=m)]: the series reindexed on the range from
    its first to its last label; an empty series is returned as it is, and
    a missing frequency is refused. *)
Definition asfreq (s : Series) (freq : option Freq) (m : FillMethod)
  : Outcome Series :=
  match index_min s, index_max s with
  | Some lo, Some hi =>
      match freq with
      | Some f => reindex s (date_range lo hi (freq_seconds f)) m
      | None => Raised ValueError
      end
  | _, _ => ret s
  end.

(** Aggregations of [resample] and [groupby]: NaN values are skipped, and a
    group without a valid value gives NaN. *)
Inductive Agg := AggMean | AggSum | AggMin | AggMax.

Definition fmin (a b : float) : float := if PrimFloat.ltb b a then b else a.
Definition fmax (a b : float) : float := if PrimFloat.ltb a b then b else a.

Definition aggregate (a : Agg) (vs : list float) : float :=
  match filter notnull vs with
  | [] => PrimFloat.nan
  | v0 :: r =>
      match a with
      | AggMean => PrimFloat.div (fold_left PrimFloat.add r v0)
                                 (float_of_nat (S (List.length r)))
      | AggSum => fold_left PrimFloat.add r v0
      | AggMin => fold_left fmin r v0
      | AggMax => fold_left fmax r v0
      end
  end.

(** The first and last bin edge of [resample(freq, closed='right')] for the
    labels from [first] to [last].  Bin edges lie a whole number of
    intervals after the midnight before [first]; a frequency of several
    days starts from the midnights before [first] and [last] instead. *)
Definition normalize_ts (t : Timestamp) : Timestamp := t - t mod day.

Definition is_days (u : Unit) : bool :=
  match u with Days => true | _ => false end.

Definition range_edges (f : Freq) (first last : Timestamp)
  : Timestamp * Timestamp :=
  let dt := freq_seconds f in
  if is_days (alias f) && negb (day mod dt =? 0)
  then (normalize_ts first - dt, normalize_ts last + dt)
  else
    let anchor := normalize_ts first in
    let foffset := (first - anchor) mod dt in
    let loffset := (last - anchor) mod dt in
    ((if 0 <? foffset then first - foffset else first - dt),
     (if 0 <? loffset then last + (dt - loffset) else last)).

(** The rows of the bucket labelled [label]: right-closed, so the labels
    after [label - dt] up to [label] itself. *)
Definition bucket (dt : Z) (label : Timestamp) (s : Series) : Series :=
  filter (fun r => (label - dt <? fst r) && (fst r <=? label)) s.

(** [series.resample(freq, label='right', closed='right').<agg>()]: one
    row per bin, labelled with the bin's right edge; a missing frequency is
    refused. *)
Definition resample_right (freq : option Freq) (a : Agg) (s : Series)
  : Outcome Series :=
  match freq with
  | None => Raised TypeError
  | Some f =>
      match index_min s, index_max s with
      | Some first, Some last =>
          let dt := freq_seconds f in
          let (lo, hi) := range_edges f first last in
          ret (map (fun label =>
                      (label, aggregate a (values (bucket dt label s))))
                   (tl (date_range lo hi dt)))
      | _, _ => ret s
      end
  end.

(** [series.groupby(level=0).mean()]. *)
Definition groupby_mean (s : Series) : Series :=
  map (fun t => (t, aggregate AggMean
                      (values (filter (fun r => fst r =? t) s))))
      (sort_unique (index s)).

(** [pd.infer_freq(index)]: the constant spacing of a strictly increasing
    index, as a frequency, or [None]; fewer than three labels are refused. *)
Fixpoint constant_step (d : Z) (l : list Timestamp) : bool :=
  match l with
  | [] => true
  | t :: r =>
      match r with
      | [] => true
      | t' :: _ => (t' - t =? d) && constant_step d r
      end
  end.

Definition freq_of_seconds (d : Z) : Freq :=
  if d mod 86400 =? 0 then mkFreq (Z.to_pos (d / 86400)) Days
  else if d mod 3600 =? 0 then mkFreq (Z.to_pos (d / 3600)) Hours
  else if d mod 60 =? 0 then mkFreq (Z.to_pos (d / 60)) Minutes
  else mkFreq (Z.to_pos d) Seconds.

Definition infer_freq (idx : list Timestamp) : Outcome (option Freq) :=
  match idx with
  | t0 :: t1 :: _ :: _ =>
      let d := t1 - t0 in
      if (0 <? d) && constant_step d idx
      then ret (Some (freq_of_seconds d))
      else ret None
  | _ => Raised ValueError
  end.

End pd.

(* ================================================================== *)
(** ** pastas.utils *)
(* ================================================================== *)

Module utils.

(** Modelled from the spec: [pastas/utils.py] is not among the sources.
    [get_dt(freq)] is the length of the sampling interval of [freq]
    ("requested interval", "inferred interval" in section 4.2); it is given
    in seconds here.  Without a frequency string there is nothing to parse. *)
Definition get_dt (freq : option Freq) : Outcome Z :=
  match freq with
  | Some f => ret (freq_seconds f)
  | None => Raised TypeError
  end.

(** Modelled from the spec: [pastas/utils.py] is not among the sources.
    [get_time_offset(t, freq)] is the residual offset of [t] at [freq]
    (section 4.4): what [t] lies past the last point of the grid of [freq],
    for a daily frequency its time of day. *)
Definition get_time_offset (t : Timestamp) (freq : option Freq) : Outcome Z :=
  match freq with
  | Some f => ret (t mod freq_seconds f)
  | None => Raised TypeError
  end.

End utils.

(* ================================================================== *)
(** ** The settings dictionary *)
(* ================================================================== *)

Module Settings.

(** The recognised keys of [self.settings]. *)
Record t := mk {
  freq : option Freq;
  sample_up : Policy;
  sample_down : Policy;
  fill_nan : Policy;
  fill_before : Policy;
  fill_after : Policy;
  tmin : option Timestamp;
  tmax : option Timestamp;
  norm : Policy
}.

(** One key with its value, as in a dict given to [update]. *)
Inductive item :=
| Kfreq (v : option Freq)
| Ksample_up (v : Policy)
| Ksample_down (v : Policy)
| Kfill_nan (v : Policy)
| Kfill_before (v : Policy)
| Kfill_after (v : Policy)
| Ktmin (v : option Timestamp)
| Ktmax (v : option Timestamp)
| Knorm (v : Policy).

Definition set (s : t) (i : item) : t :=
  match i with
  | Kfreq v => mk v (sample_up s) (sample_down s) (fill_nan s) (fill_before s) (fill_after s) (tmin s) (tmax s) (norm s)
  | Ksample_up v => mk (freq s) v (sample_down s) (fill_nan s) (fill_before s) (fill_after s) (tmin s) (tmax s) (norm s)
  | Ksample_down v => mk (freq s) (sample_up s) v (fill_nan s) (fill_before s) (fill_after s) (tmin s) (tmax s) (norm s)
  | Kfill_nan v => mk (freq s) (sample_up s) (sample_down s) v (fill_before s) (fill_after s) (tmin s) (tmax s) (norm s)
  | Kfill_before v => mk (freq s) (sample_up s) (sample_down s) (fill_nan s) v (fill_after s) (tmin s) (tmax s) (norm s)
  | Kfill_after v => mk (freq s) (sample_up s) (sample_down s) (fill_nan s) (fill_before s) v (tmin s) (tmax s) (norm s)
  | Ktmin v => mk (freq s) (sample_up s) (sample_down s) (fill_nan s) (fill_before s) (fill_after s) v (tmax s) (norm s)
  | Ktmax v => mk (freq s) (sample_up s) (sample_down s) (fill_nan s) (fill_before s) (fill_after s) (tmin s) v (norm s)
  | Knorm v => mk (freq s) (sample_up s) (sample_down s) (fill_nan s) (fill_before s) (fill_after s) (tmin s) (tmax s) v
  end.

(** [settings.update(d)]. *)
Definition update (s : t) (d : list item) : t := fold_left set d s.

(** The dictionary as keyword arguments ([**self.settings]). *)
Definition items (s : t) : list item :=
  [Kfreq (freq s); Ksample_up (sample_up s); Ksample_down (sample_down s);
   Kfill_nan (fill_nan s); Kfill_before (fill_before s);
   Kfill_after (fill_after s); Ktmin (tmin s); Ktmax (tmax s);
   Knorm (norm s)].

End Settings.

Definition freq_D : option Freq := Some (mkFreq 1 Days).

(** The dictionary [__init__] starts from. *)
Definition default_settings : Settings.t :=
  Settings.mk freq_D PNone PNone PNone PNone PNone None None PNone.

(** [TimeSeries._type_settings]. *)
Definition _type_settings : list (string * list Settings.item) :=
  let z := PFloat 0%float in
  [ ("oseries"%string,
     [Settings.Kfreq freq_D; Settings.Ksample_up PNone;
      Settings.Ksample_down PNone; Settings.Kfill_nan (PStr "drop");
      Settings.Kfill_before PNone; Settings.Kfill_after PNone]);
    ("prec"%string,
     [Settings.Kfreq freq_D; Settings.Ksample_up (PStr "mean");
      Settings.Ksample_down (PStr "sum"); Settings.Kfill_nan z;
      Settings.Kfill_before (PStr "mean"); Settings.Kfill_after (PStr "mean")]);
    ("evap"%string,
     [Settings.Kfreq freq_D; Settings.Ksample_up (PStr "interpolate");
      Settings.Ksample_down (PStr "sum");
      Settings.Kfill_nan (PStr "interpolate");
      Settings.Kfill_before (PStr "mean"); Settings.Kfill_after (PStr "mean")]);
    ("well"%string,
     [Settings.Kfreq freq_D; Settings.Ksample_up (PStr "bfill");
      Settings.Ksample_down (PStr "sum"); Settings.Kfill_nan z;
      Settings.Kfill_before z; Settings.Kfill_after z]);
    ("waterlevel"%string,
     [Settings.Kfreq freq_D; Settings.Ksample_up (PStr "mean");
      Settings.Ksample_down (PStr "interpolate");
      Settings.Kfill_nan (PStr "interpolate");
      Settings.Kfill_before (PStr "mean"); Settings.Kfill_after (PStr "mean")])
  ].

(** [self._type_settings[type]] when [type] is one of the keys. *)
Definition type_settings (type : option string) : list Settings.item :=
  match type with
  | None => []
  | Some k =>
      match find (fun e => String.eqb (fst e) k) _type_settings with
      | Some e => snd e
      | None => []
      end
  end.

(* ================================================================== *)
(** ** The TimeSeries class *)
(* ================================================================== *)

(** The object.  [TimeSeries] extends [pd.Series]: [self_rows] are the rows
    the object itself holds as a series (what [self.index] reads and
    [_update_inplace] replaces), the derived series.  The other fields are
    the attributes [__init__] sets. *)
Record TimeSeries := mkTimeSeries {
  self_rows : Series;
  series_original : Series;
  freq_original : option Freq;
  name : string;
  type : option string;
  settings : Settings.t;
  series : Series
}.

(** [self.series] and [self.settings], for where a parameter has the
    attribute's name. *)
Definition series_of (self : TimeSeries) : Series := series self.
Definition settings_of (self : TimeSeries) : Settings.t := settings self.

Definition with_freq_original (self : TimeSeries) (f : option Freq) :=
  mkTimeSeries (self_rows self) (series_original self) f (name self)
               (type self) (settings self) (series self).

Definition with_settings (self : TimeSeries) (st : Settings.t) :=
  mkTimeSeries (self_rows self) (series_original self) (freq_original self)
               (name self) (type self) st (series self).

Definition with_series (self : TimeSeries) (s : Series) :=
  mkTimeSeries (self_rows self) (series_original self) (freq_original self)
               (name self) (type self) (settings self) s.

(** [self._update_inplace(series)]. *)
Definition _update_inplace (self : TimeSeries) (s : Series) :=
  mkTimeSeries s (series_original self) (freq_original self)
               (name self) (type self) (settings self) (series self).

(** The caution every fill step shares; the message names [sample_up]. *)
Definition not_supported (step : string) (method : Policy) : Outcome unit :=
  warn (UnsupportedOption step method).

(** [fill_nan]: fill the NaN values on the grid of the original frequency;
    without a frequency they are dropped. *)
Definition fill_nan (self : TimeSeries) (series : Series) : Outcome Series :=
  let method := Settings.fill_nan (settings self) in
  let freq := freq_original self in
  match freq with
  | Some _ =>
      series <- pd.asfreq series freq pd.NoFill ;;
      if is_str method "drop" then ret (pd.dropna series)
      else if is_str method "mean" then ret (pd.fillna (pd.mean series) series)
      else if is_str method "interpolate" then ret (pd.interpolate_time series)
      else match is_float method with
           | Some v => ret (pd.fillna v series)
           | None => not_supported "sample_up" method ;;; ret series
           end
  | None => ret (pd.dropna series)
  end.

(** [validate_series].  The result holds the object (its [freq_original]
    and [settings] may be set), the validated series, and the argument
    object as the method leaves it: it gets its index converted and is
    sorted in place before a copy is taken. *)
Definition validate_series (self : TimeSeries) (series : Series)
  : Outcome (TimeSeries * Series * Series) :=
  (* 4. Make sure the indices are Timestamps and sorted *)
  let argument := pd.sort_index series in
  (* 2. Drop nan-values at the beginning and end of the time series *)
  let series := pd.loc argument (pd.first_valid_index argument)
                       (pd.last_valid_index argument) in
  (* 3. Find the frequency of the original series *)
  freq <- pd.infer_freq (index series) ;;
  self <-
    match freq with
    | Some _ =>
        let self := with_freq_original self freq in
        match Settings.freq (settings self) with
        | None => ret (with_settings self
                         (Settings.set (settings self) (Settings.Kfreq freq)))
        | Some _ => ret self
        end
    | None =>
        let self := with_freq_original self (Settings.freq (settings self)) in
        let method := Settings.fill_nan (settings self) in
        (if truthy method && negb (is_str method "drop")
         then warn (UserFrequencyApplied (name self))
         else ret tt) ;;;
        ret self
    end ;;
  (* 3. drop nan-values *)
  series <- (if pd.hasnans series then fill_nan self series else ret series) ;;
  (* 5. Handle duplicate indices *)
  let series := if pd.is_unique (index series) then series
                else pd.groupby_mean series in
  ret (self, series, argument).

(** [sample_up].  The four fill methods of [asfreq] are two: "backfill"
    and "bfill" take the next row, "pad" and "ffill" the row before. *)
Definition sample_up (self : TimeSeries) (series : Series) : Outcome Series :=
  let method := Settings.sample_up (settings self) in
  let freq := Settings.freq (settings self) in
  if in_strs method ["backfill"; "bfill"]%string
  then pd.asfreq series freq pd.BFill
  else if in_strs method ["pad"; "ffill"]%string
  then pd.asfreq series freq pd.FFill
  else
    series <- pd.asfreq series freq pd.NoFill ;;
    if is_str method "mean" then ret (pd.fillna (pd.mean series) series)
    else if is_str method "interpolate" then ret (pd.interpolate_time series)
    else match is_float method with
         | Some v => ret (pd.fillna v series)
         | None => not_supported "sample_up" method ;;; ret series
         end.

(** [sample_down]: every recognised method resamples with
    [label='right', closed='right'].  [resample(...).dropna()] takes the
    mean of each bin and drops the bins left without a value. *)
Definition sample_down (self : TimeSeries) (series : Series) : Outcome Series :=
  let method := Settings.sample_down (settings self) in
  let freq := Settings.freq (settings self) in
  if is_str method "mean" then pd.resample_right freq pd.AggMean series
  else if is_str method "drop"
  then series <- pd.resample_right freq pd.AggMean series ;;
       ret (pd.dropna series)
  else if is_str method "sum" then pd.resample_right freq pd.AggSum series
  else if is_str method "min" then pd.resample_right freq pd.AggMin series
  else if is_str method "max" then pd.resample_right freq pd.AggMax series
  else not_supported "sample_down" method ;;; ret series.

(** [change_frequency]. *)
Definition change_frequency (self : TimeSeries) (series : Series)
  : Outcome Series :=
  let freq := Settings.freq (settings self) in
  series <-
    match freq with
    | None => ret series
    | Some _ =>
        dt <- utils.get_dt freq ;;
        dt_original <- utils.get_dt (freq_original self) ;;
        if dt <? dt_original then sample_up self series
        else if dt_original <? dt then sample_down self series
        else if dt =? dt_original then fill_nan self series
        else ret (series_of self)
    end ;;
  (* Drop nan-values at the beginning and end of the time series *)
  ret (pd.loc series (pd.first_valid_index series)
              (pd.last_valid_index series)).

(** The fill of [fill_before] and [fill_after]. *)
Definition fill_extension (method : Policy) (series : Series)
  : Outcome Series :=
  if is_str method "mean" then ret (pd.fillna (pd.mean series) series)
  else match is_float method with
       | Some v => ret (pd.fillna v series)
       | None => not_supported "sample_up" method ;;; ret series
       end.

(** The first half of the extension in [fill_before]: the corrected
    [tmin], the range from it to the first label of the series, and the
    series reindexed on the union of [self.index], the index of the object,
    with that range less its last label. *)
Definition reindex_before (self : TimeSeries) (series : Series)
    (tmin : Timestamp) : Outcome Series :=
  let freq := Settings.freq (settings self) in
  (* When time offsets are not equal *)
  time_offset <- utils.get_time_offset tmin freq ;;
  let tmin := tmin - time_offset in
  match pd.index_min series, freq with
  | Some lo, Some f =>
      let index_extend := pd.date_range tmin lo (freq_seconds f) in
      let index := pd.union (index (self_rows self))
                            (removelast index_extend) in
      pd.reindex series index pd.NoFill
  | _, _ => Raised ValueError
  end.

(** [pd.Timestamp(tmin) >= series.index.min()]; false against NaT. *)
Definition at_or_after_min (tmin : Timestamp) (series : Series) : bool :=
  match pd.index_min series with
  | Some lo => lo <=? tmin
  | None => false
  end.

(** [fill_before]. *)
Definition fill_before (self : TimeSeries) (series : Series)
  : Outcome Series :=
  let method := Settings.fill_before (settings self) in
  match Settings.tmin (settings self) with
  | None => ret series
  | Some tmin =>
      if at_or_after_min tmin series then ret series
      else
        series <- reindex_before self series tmin ;;
        fill_extension method series
  end.

(** The first half of the extension in [fill_after]: the range runs from
    the corrected [tmax] to the last label of the series. *)
Definition reindex_after (self : TimeSeries) (series : Series)
    (tmax : Timestamp) : Outcome Series :=
  let freq := Settings.freq (settings self) in
  (* When time offsets are not equal *)
  time_offset <- utils.get_time_offset tmax freq ;;
  let tmax := tmax - time_offset in
  match pd.index_max series, freq with
  | Some hi, Some f =>
      let index_extend := pd.date_range tmax hi (freq_seconds f) in
      let index := pd.union (index (self_rows self))
                            (removelast index_extend) in
      pd.reindex series index pd.NoFill
  | _, _ => Raised ValueError
  end.

(** [pd.Timestamp(tmax) <= series.index.max()]; false against NaT. *)
Definition at_or_before_max (tmax : Timestamp) (series : Series) : bool :=
  match pd.index_max series with
  | Some hi => tmax <=? hi
  | None => false
  end.

(** [fill_after]. *)
Definition fill_after (self : TimeSeries) (series : Series)
  : Outcome Series :=
  let method := Settings.fill_after (settings self) in
  match Settings.tmax (settings self) with
  | None => ret series
  | Some tmax =>
      if at_or_before_max tmax series then ret series
      else
        series <- reindex_after self series tmax ;;
        fill_extension method series
  end.

(** [normalize]. *)
Definition normalize (self : TimeSeries) (series : Series) : Outcome Series :=
  let method := Settings.norm (settings self) in
  match method with
  | PNone => ret series
  | _ =>
      if is_str method "mean" then ret (pd.subtract (pd.mean series) series)
      else ret series
  end.

(** [update_series] with keyword arguments [kwargs]. *)
Definition update_series (self : TimeSeries) (kwargs : list Settings.item)
  : Outcome TimeSeries :=
  (* Get the validated series to start with *)
  let series := series_of self in
  match kwargs with
  | [] => ret self
  | _ :: _ =>
      (* Update the options with any provided arguments *)
      let self := with_settings self (Settings.update (settings self) kwargs) in
      (* Update the series with the new settings *)
      series <- change_frequency self series ;;
      series <- fill_before self series ;;
      series <- fill_after self series ;;
      series <- normalize self series ;;
      ret (_update_inplace self series)
  end.

(** The constructor [__init__].  The result holds
    the object and the argument [series] as the constructor leaves it. *)
Definition init (series : Series) (name : string) (type : option string)
    (settings kwargs : list Settings.item) : Outcome (TimeSeries * Series) :=
  let st := Settings.update default_settings (type_settings type) in
  (* Update the options with user-provided values, if any. *)
  let st := Settings.update st settings in
  let st := Settings.update st kwargs in
  (* Store a copy of the original series *)
  let self := mkTimeSeries [] series None name type st [] in
  (* Create a validated series for computations *)
  r <- validate_series self series ;;
  let '(self, validated, argument) := r in
  let self := with_series self validated in
  (* Finally, update the TimeSeries so it is ready for simulation *)
  self <- update_series self (Settings.items (settings_of self)) ;;
  ret (self, argument).

(** The dictionary [export] returns. *)
Record Export := mkExport {
  export_series : Series;
  export_settings : Settings.t;
  export_name : string;
  export_type : option string
}.

(** [export]. *)
Definition export (self : TimeSeries) : Export :=
  mkExport (series_original self) (settings self) (name self) (type self).

(** Recreating the object from an exported dictionary: the constructor
    called with the entries of the dictionary as its arguments. *)
Definition reconstruct (data : Export) : Outcome (TimeSeries * Series) :=
  init (export_series data) (export_name data) (export_type data)
       (Settings.items (export_settings data)) [].

(** The derived series of a constructed object, when construction ends. *)
Definition derived {A} (r : Outcome (TimeSeries * A)) : option Series :=
  match r with
  | Done (self, _) _ => Some (self_rows self)
  | Raised _ => None
  end.

(* ================================================================== *)
(** ** Vocabulary of the properties *)
(* ================================================================== *)

(** *** Shapes of an index *)

(** Constant spacing [dt] of a list of labels. *)
Fixpoint spaced (dt : Z) (l : list Timestamp) : Prop :=
  match l with
  | [] => True
  | t :: r =>
      match r with
      | [] => True
      | t' :: _ => t' = t + dt /\ spaced dt r
      end
  end.

(** Strictly increasing labels. *)
Fixpoint increasing (l : list Timestamp) : Prop :=
  match l with
  | [] => True
  | t :: r =>
      match r with
      | [] => True
      | t' :: _ => t < t' /\ increasing r
      end
  end.

(** Rows in chronological order: labels do not decrease. *)
Definition label_le (a b : Row) : Prop := fst a <= fst b.
Definition chronological (s : Series) : Prop := Sorted label_le s.

(** *** Outcomes of a step *)

(** A step that reindexes and then leaves the new rows as they are, with
    the caution for an unsupported option. *)
Definition left_unfilled (method : Policy) (reindexed : Outcome Series)
  : Outcome Series :=
  s <- reindexed ;; warn (UnsupportedOption "sample_up" method) ;;; ret s.

(** A step that reindexes and then fills every NaN with [v]. *)
Definition filled_with (v : float) (reindexed : Outcome Series)
  : Outcome Series :=
  s <- reindexed ;; ret (pd.fillna v s).




(** *** Policy values *)

(** A number that is not of type [float]: an [int], a numpy scalar. *)
Definition number_not_float (method : Policy) : Prop :=
  match method with PInt _ | PObj _ => True | _ => False end.






(** The aggregation a recognised [sample_down] method applies. *)
Definition down_agg (method : Policy) : option pd.Agg :=
  if is_str method "mean" then Some pd.AggMean
  else if is_str method "drop" then Some pd.AggMean
  else if is_str method "sum" then Some pd.AggSum
  else if is_str method "min" then Some pd.AggMin
  else if is_str method "max" then Some pd.AggMax
  else None.

(** The settings under which [change_frequency] puts the series on the
    grid of the frequency [f], [f0] being the original frequency:
    upsampling, downsampling with an aggregating method, or equal intervals
    with a policy for gaps other than "drop". *)
Definition regrids (st : Settings.t) (f f0 : Freq) : bool :=
  if freq_seconds f <? freq_seconds f0 then true
  else if freq_seconds f0 <? freq_seconds f
  then match down_agg (Settings.sample_down st) with
       | Some _ => negb (is_str (Settings.sample_down st) "drop")
       | None => false
       end
  else negb (is_str (Settings.fill_nan st) "drop").

(** *** Objects *)

(** The objects a program can hold: constructed, then updated any number
    of times. *)
Inductive reachable : TimeSeries -> Prop :=
| reach_init raw nm ty st kwargs self argument w :
    init raw nm ty st kwargs = Done (self, argument) w ->
    reachable self
| reach_update self kwargs self' w :
    reachable self ->
    update_series self kwargs = Done self' w ->
    reachable self'.

(** The derived series of an object lies on the grid of the frequency
    when no window is asked for and the settings put the series there. *)
Definition on_grid (self : TimeSeries) : Prop :=
  forall f f0,
    Settings.freq (settings self) = Some f ->
    freq_original self = Some f0 ->
    Settings.tmin (settings self) = None ->
    Settings.tmax (settings self) = None ->
    regrids (settings self) f f0 = true ->
    spaced (freq_seconds f) (index (self_rows self)).

(** An update after construction, and the object recreated from the
    export of the result. *)
Definition then_update (r : Outcome (TimeSeries * Series))
    (kwargs : list Settings.item) : Outcome (TimeSeries * Series) :=
  p <- r ;; self <- update_series (fst p) kwargs ;; ret (self, snd p).

Definition then_reconstruct (r : Outcome (TimeSeries * Series))
  : Outcome (TimeSeries * Series) :=
  p <- r ;; reconstruct (export (fst p)).

(** [validate_series] in two parts: the object after the frequency was
    looked for, and the rest, which reads that object only. *)
Definition frequency_found (self : TimeSeries) (freq : option Freq)
  : Outcome TimeSeries :=
  match freq with
  | Some _ =>
      let self := with_freq_original self freq in
      match Settings.freq (settings self) with
      | None => ret (with_settings self
                       (Settings.set (settings self) (Settings.Kfreq freq)))
      | Some _ => ret self
      end
  | None =>
      let self := with_freq_original self (Settings.freq (settings self)) in
      let method := Settings.fill_nan (settings self) in
      (if truthy method && negb (is_str method "drop")
       then warn (UserFrequencyApplied (name self))
       else ret tt) ;;;
      ret self
  end.

Definition validate_rest (self : TimeSeries) (argument trimmed : Series)
  : Outcome (TimeSeries * Series * Series) :=
  series <- (if pd.hasnans trimmed then fill_nan self trimmed
             else ret trimmed) ;;
  ret (self,
       (if pd.is_unique (index series) then series
        else pd.groupby_mean series),
       argument).

(** *** Sample data *)

Definition jan1 : Timestamp := timestamp 1990 1 1 0 0.

(** Daily rows from 1990-01-01 with the values 1, 2, ... *)
Definition daily (n : nat) : Series :=
  map (fun k => (jan1 + Z.of_nat k * day, float_of_nat (S k))) (seq 0 n).

(** The series [1, NaN, 3] on a daily grid. *)
Definition gap3 : Series :=
  [(jan1, 1%float); (jan1 + day, PrimFloat.nan); (jan1 + 2 * day, 3%float)].

(** Three rows on days 0, 1 and 3: no constant spacing. *)
Definition irregular : Series :=
  [(jan1, 1%float); (jan1 + day, 2%float); (jan1 + 3 * day, 3%float)].

(** Values at 00:00, 12:00 and 24:00. *)
Definition half_daily : Series :=
  [(jan1, 1%float); (jan1 + 12 * hour, 2%float); (jan1 + day, 4%float)].

(** Three daily rows supplied out of order. *)
Definition unsorted : Series :=
  [(jan1 + day, 2%float); (jan1, 1%float); (jan1 + 2 * day, 3%float)].

(** An object that has only its attributes set: no rows, nothing stored. *)
Definition blank (freq0 : option Freq) (st : Settings.t) : TimeSeries :=
  mkTimeSeries [] [] freq0 "h" None st [].

(** The settings the constructor starts from for a type. *)
Definition settings_of_type (type : string) : Settings.t :=
  Settings.update default_settings (type_settings (Some type)).

(** An object as the constructor has it when the pipeline first runs, with
    the precipitation defaults: it holds no rows yet. *)
Definition fresh_prec (items : list Settings.item) : TimeSeries :=
  blank freq_D (Settings.update (settings_of_type "prec") items).

(** An object whose four constant-fill policies are the [int] 5, with a
    window around the three daily rows of [daily 3]. *)
Definition int_policies : TimeSeries :=
  blank freq_D
    (Settings.mk (Some (mkFreq 12 Hours)) (PInt 5) PNone (PInt 5) (PInt 5)
       (PInt 5) (Some (jan1 - 2 * day)) (Some (jan1 + 4 * day)) PNone).

(** An object with a policy no step recognises under every key, and a
    window around the three rows of [daily 3]. *)
Definition median_policies : TimeSeries :=
  blank freq_D
    (Settings.mk (Some (mkFreq 12 Hours)) (PStr "median") (PStr "median")
       (PStr "median") (PStr "median") (PStr "median")
       (Some (jan1 - 2 * day)) (Some (jan1 + 4 * day)) (PStr "median")).

(** *** Settings *)

(** Two items assign to the same key. *)
Definition same_key (i j : Settings.item) : bool :=
  match i, j with
  | Settings.Kfreq _, Settings.Kfreq _
  | Settings.Ksample_up _, Settings.Ksample_up _
  | Settings.Ksample_down _, Settings.Ksample_down _
  | Settings.Kfill_nan _, Settings.Kfill_nan _
  | Settings.Kfill_before _, Settings.Kfill_before _
  | Settings.Kfill_after _, Settings.Kfill_after _
  | Settings.Ktmin _, Settings.Ktmin _
  | Settings.Ktmax _, Settings.Ktmax _
  | Settings.Knorm _, Settings.Knorm _ => true
  | _, _ => false
  end.

(** The dictionary [st] has the value of the item [i] under its key. *)
Definition holds (st : Settings.t) (i : Settings.item) : Prop :=
  Settings.set st i = st.

(** [i] is the last assignment to its key in [d]. *)
Definition assigned_last (d : list Settings.item) (i : Settings.item)
  : Prop :=
  exists d1 d2,
    d = d1 ++ i :: d2 /\ forallb (fun j => negb (same_key i j)) d2 = true.

(** The settings [__init__] puts together before validation. *)
Definition given_settings (ty : option string)
    (st kwargs : list Settings.item) : Settings.t :=
  Settings.update
    (Settings.update (Settings.update default_settings (type_settings ty)) st)
    kwargs.

(** The rows between the first and the last valid row of the sorted
    argument, as [validate_series] takes them. *)
Definition trimmed (raw : Series) : Series :=
  let argument := pd.sort_index raw in
  pd.loc argument (pd.first_valid_index argument)
         (pd.last_valid_index argument).

(** *** Updates *)

(** [self'] is [self] after any number of updates. *)
Inductive updated : TimeSeries -> TimeSeries -> Prop :=
| updated_none self : updated self self
| updated_step self kwargs self' self'' w :
    updated self self' ->
    update_series self' kwargs = Done self'' w ->
    updated self self''.

(* ================================================================== *)
(** ** Properties: outcomes and indexes *)
(* ================================================================== *)

#[local] Arguments Z.mul : simpl never.
#[local] Arguments Z.add : simpl never.
#[local] Arguments Z.sub : simpl never.
#[local] Arguments Z.div : simpl never.
#[local] Arguments Z.modulo : simpl never.
#[local] Arguments Z.of_nat : simpl never.
#[local] Arguments Z.to_nat : simpl never.
#[local] Arguments Z.ltb : simpl never.
#[local] Arguments Z.leb : simpl never.
#[local] Arguments Z.eqb : simpl never.

Section OutcomeFacts.
Context {A B : Type}.

Lemma bind_Done (a : A) (w : list Caution) (k : A -> Outcome B) :
  bind (Done a w) k =
  match k a with Done b w' => Done b (w ++ w') | Raised e => Raised e end.
Proof. reflexivity. Qed.

Lemma bind_ret_l (a : A) (k : A -> Outcome B) : bind (ret a) k = k a.
Proof. unfold ret, bind. destruct (k a); reflexivity. Qed.

Lemma bind_inv (m : Outcome A) (k : A -> Outcome B) b w :
  bind m k = Done b w ->
  exists a w1 w2, m = Done a w1 /\ k a = Done b w2 /\ w = w1 ++ w2.
Proof.
  destruct m as [a w1|e]; simpl; [|discriminate].
  destruct (k a) as [b' w2|e] eqn:E; [|discriminate].
  intros H; inversion H; subst. eauto 6.
Qed.
End OutcomeFacts.

Lemma spaced_increasing dt l : 0 < dt -> spaced dt l -> increasing l.
Proof.
  intros Hdt. induction l as [|t [|t' r] IH]; simpl; auto.
  intros [E Hs]. split; [lia | apply IH; exact Hs].
Qed.

Lemma increasing_lt_head t l :
  increasing (t :: l) -> forall x, In x l -> t < x.
Proof.
  revert t. induction l as [|t' r IH]; intros t H x Hx; [destruct Hx|].
  destruct H as [Hlt Hr]. destruct Hx as [<-|Hx]; [exact Hlt|].
  specialize (IH t' Hr x Hx). lia.
Qed.

Lemma increasing_tail t l : increasing (t :: l) -> increasing l.
Proof. destruct l; simpl; tauto. Qed.

Lemma increasing_NoDup l : increasing l -> NoDup l.
Proof.
  induction l as [|t r IH]; intros H; constructor.
  - intros Hin. pose proof (increasing_lt_head _ _ H _ Hin). lia.
  - apply IH. eapply increasing_tail; eauto.
Qed.

Lemma increasing_cons t l :
  increasing l -> (forall x, In x l -> t < x) -> increasing (t :: l).
Proof.
  destruct l as [|t' r]; simpl; auto.
Qed.

Lemma is_unique_NoDup l : pd.is_unique l = true <-> NoDup l.
Proof.
  induction l as [|t r IH]; simpl.
  - split; auto using NoDup_nil.
  - rewrite andb_true_iff, negb_true_iff, IH. split.
    + intros [Hn Hu]. constructor; auto.
      intros Hin. assert (existsb (Z.eqb t) r = true); [|congruence].
      apply existsb_exists. exists t. split; auto. apply Z.eqb_refl.
    + intros H. inversion H; subst. split; auto.
      destruct (existsb (Z.eqb t) r) eqn:E; auto.
      apply existsb_exists in E. destruct E as [x [Hx Hx']].
      apply Z.eqb_eq in Hx'. subst. contradiction.
Qed.

Lemma increasing_is_unique l : increasing l -> pd.is_unique l = true.
Proof. intros H. apply is_unique_NoDup, increasing_NoDup, H. Qed.

(** *** Ranges *)

Lemma spaced_range a dt n s :
  spaced dt (map (fun k => a + Z.of_nat k * dt) (seq s n)).
Proof.
  revert s. induction n as [|n IH]; intros s; simpl; auto.
  destruct n as [|n]; simpl; auto.
  split; [rewrite Nat2Z.inj_succ; ring | apply (IH (S s))].
Qed.

Lemma date_range_spaced a b dt : spaced dt (pd.date_range a b dt).
Proof.
  unfold pd.date_range. destruct (b <? a); [exact I|].
  apply spaced_range.
Qed.

Lemma date_range_In a b dt t :
  0 < dt ->
  In t (pd.date_range a b dt) <->
  exists k, 0 <= k /\ t = a + k * dt /\ t <= b.
Proof.
  intros Hdt. unfold pd.date_range.
  destruct (Z.ltb_spec b a) as [Hlt|Hle].
  - split; [intros []|]. intros [k [Hk [-> Hb]]]. nia.
  - rewrite in_map_iff. split.
    + intros [k [<- Hin]]. apply in_seq in Hin.
      exists (Z.of_nat k). split; [lia|]. split; [reflexivity|].
      assert (Hq : Z.of_nat k <= (b - a) / dt).
      { assert (0 <= (b - a) / dt) by (apply Z.div_pos; lia). lia. }
      assert (dt * ((b - a) / dt) <= b - a)
        by (apply Z.mul_div_le; lia).
      nia.
    + intros [k [Hk [-> Hb]]]. exists (Z.to_nat k). split.
      * rewrite Z2Nat.id by lia. reflexivity.
      * apply in_seq. split; [lia|]. simpl.
        assert (k <= (b - a) / dt)
          by (apply Z.div_le_lower_bound; lia).
        lia.
Qed.

Lemma removelast_date_range a b dt :
  a <= b ->
  removelast (pd.date_range a b dt) =
  map (fun k => a + Z.of_nat k * dt) (seq 0 (Z.to_nat ((b - a) / dt))).
Proof.
  intros Hab. unfold pd.date_range.
  destruct (Z.ltb_spec b a); [lia|].
  rewrite seq_S, map_app. simpl. apply removelast_last.
Qed.

Lemma removelast_date_range_spaced a b dt :
  spaced dt (removelast (pd.date_range a b dt)).
Proof.
  destruct (Z.le_gt_cases a b) as [H|H].
  - rewrite removelast_date_range by exact H. apply spaced_range.
  - unfold pd.date_range. destruct (Z.ltb_spec b a); [simpl; auto | lia].
Qed.

Lemma removelast_date_range_In a b dt t :
  0 < dt ->
  In t (removelast (pd.date_range a b dt)) ->
  (exists k, 0 <= k /\ t = a + k * dt) /\ t + dt <= b.
Proof.
  intros Hdt. destruct (Z.le_gt_cases a b) as [H|H].
  - rewrite removelast_date_range by exact H. rewrite in_map_iff.
    intros [k [<- Hin]]. apply in_seq in Hin. split.
    + exists (Z.of_nat k). split; [lia | reflexivity].
    + assert (0 <= (b - a) / dt) by (apply Z.div_pos; lia).
      assert (dt * ((b - a) / dt) <= b - a) by (apply Z.mul_div_le; lia).
      nia.
  - unfold pd.date_range. destruct (Z.ltb_spec b a); [intros []|lia].
Qed.

Lemma freq_seconds_pos f : 0 < freq_seconds f.
Proof. unfold freq_seconds. destruct (alias f); simpl; lia. Qed.

(** *** Smallest and largest label *)

Lemma fold_min_spec l t0 :
  let m := fold_left Z.min l t0 in
  (m = t0 \/ In m l) /\ m <= t0 /\ forall x, In x l -> m <= x.
Proof.
  revert t0. induction l as [|x r IH]; intros t0; simpl.
  - split; [auto|]. split; [lia|]. intros ? [].
  - destruct (IH (Z.min t0 x)) as [Hin [Hle Hall]]. split; [|split].
    + destruct Hin as [E|Hin]; [|auto].
      rewrite E. destruct (Z.min_spec t0 x) as [[_ ->]|[_ ->]]; auto.
    + lia.
    + intros y [<-|Hy]; [lia | auto].
Qed.

Lemma fold_max_spec l t0 :
  let m := fold_left Z.max l t0 in
  (m = t0 \/ In m l) /\ t0 <= m /\ forall x, In x l -> x <= m.
Proof.
  revert t0. induction l as [|x r IH]; intros t0; simpl.
  - split; [auto|]. split; [lia|]. intros ? [].
  - destruct (IH (Z.max t0 x)) as [Hin [Hle Hall]]. split; [|split].
    + destruct Hin as [E|Hin]; [|auto].
      rewrite E. destruct (Z.max_spec t0 x) as [[_ ->]|[_ ->]]; auto.
    + lia.
    + intros y [<-|Hy]; [lia | auto].
Qed.

Lemma index_min_spec s lo :
  pd.index_min s = Some lo ->
  In lo (index s) /\ forall t, In t (index s) -> lo <= t.
Proof.
  unfold pd.index_min. destruct (index s) as [|t0 r]; [discriminate|].
  intros H; inversion H; subst. clear H.
  destruct (fold_min_spec r t0) as [Hin [Hle Hall]]. split.
  - destruct Hin as [->|Hin]; [left; reflexivity | right; exact Hin].
  - intros t [<-|Ht]; auto.
Qed.

Lemma index_max_spec s hi :
  pd.index_max s = Some hi ->
  In hi (index s) /\ forall t, In t (index s) -> t <= hi.
Proof.
  unfold pd.index_max. destruct (index s) as [|t0 r]; [discriminate|].
  intros H; inversion H; subst. clear H.
  destruct (fold_max_spec r t0) as [Hin [Hle Hall]]. split.
  - destruct Hin as [->|Hin]; [left; reflexivity | right; exact Hin].
  - intros t [<-|Ht]; auto.
Qed.

Lemma index_min_None s : pd.index_min s = None <-> s = [].
Proof.
  unfold pd.index_min, index. destruct s; simpl; split; congruence.
Qed.

Lemma index_max_None s : pd.index_max s = None <-> s = [].
Proof.
  unfold pd.index_max, index. destruct s; simpl; split; congruence.
Qed.

(** *** Operations that keep the index *)

Lemma index_fillna v s : index (pd.fillna v s) = index s.
Proof. unfold index, pd.fillna. rewrite map_map. reflexivity. Qed.

Lemma index_subtract v s : index (pd.subtract v s) = index s.
Proof. unfold index, pd.subtract. rewrite map_map. reflexivity. Qed.

Lemma index_interpolate_from prev s :
  index (pd.interpolate_from prev s) = index s.
Proof.
  revert prev. induction s as [|r rest IH]; intros prev; simpl; auto.
  destruct (isnull (snd r)); simpl; rewrite IH; reflexivity.
Qed.

Lemma index_interpolate_time s : index (pd.interpolate_time s) = index s.
Proof. apply index_interpolate_from. Qed.

Lemma labels_eqb_eq a b : pd.labels_eqb a b = true <-> a = b.
Proof.
  unfold pd.labels_eqb. destruct (list_eq_dec Z.eq_dec a b); split;
    congruence.
Qed.

Lemma index_reindex s idx m s' w :
  pd.reindex s idx m = Done s' w -> index s' = idx /\ w = [].
Proof.
  unfold pd.reindex. destruct (pd.labels_eqb idx (index s)) eqn:E.
  - apply labels_eqb_eq in E. intros H; inversion H; subst. auto.
  - destruct (pd.is_unique (index s)); [|discriminate].
    intros H; inversion H; subst. split; auto.
    unfold index. rewrite map_map. simpl. apply map_id.
Qed.

Lemma reindex_unique s idx m :
  pd.is_unique (index s) = true ->
  exists s', pd.reindex s idx m = Done s' [].
Proof.
  intros H. unfold pd.reindex. destruct (pd.labels_eqb idx (index s)).
  - eexists; reflexivity.
  - rewrite H. eexists; reflexivity.
Qed.

(* ================================================================== *)
(** ** Gap filling *)
(* ================================================================== *)

(** C7.  On the daily grid the series [1, NaN, 3] is filled to [1, 2, 3]
    by the policy "interpolate", loses its gap row under "drop", and
    becomes [1, 5.0, 3] under the float 5.0; and when the object has no
    original frequency, [fill_nan] returns exactly the rows that hold a
    value, whatever the policy, and raises no caution. *)
Theorem fill_nan_gap_filling (self : TimeSeries) :
  (freq_original self = freq_D ->
     (Settings.fill_nan (settings self) = PStr "interpolate" ->
        fill_nan self gap3 =
        Done [(jan1, 1%float); (jan1 + day, 2%float);
              (jan1 + 2 * day, 3%float)] []) /\
     (Settings.fill_nan (settings self) = PStr "drop" ->
        fill_nan self gap3 =
        Done [(jan1, 1%float); (jan1 + 2 * day, 3%float)] []) /\
     (Settings.fill_nan (settings self) = PFloat 5%float ->
        fill_nan self gap3 =
        Done [(jan1, 1%float); (jan1 + day, 5%float);
              (jan1 + 2 * day, 3%float)] [])) /\
  (freq_original self = None ->
     forall series,
       fill_nan self series =
       Done (filter (fun r => negb (isnull (snd r))) series) []).
Proof.
  split.
  - intros Hf. repeat split; intros Hm; unfold fill_nan;
      rewrite Hf, Hm; vm_compute; reflexivity.
  - intros Hf series. unfold fill_nan. rewrite Hf. reflexivity.
Qed.

Lemma fill_nan_gap_filling_witness :
  fill_nan (blank freq_D (Settings.set default_settings
                            (Settings.Kfill_nan (PStr "interpolate")))) gap3 =
  Done [(jan1, 1%float); (jan1 + day, 2%float); (jan1 + 2 * day, 3%float)] []
  /\
  fill_nan (blank None default_settings) gap3 =
  Done [(jan1, 1%float); (jan1 + 2 * day, 3%float)] [].
Proof.
  split.
  - exact (proj1 (proj1 (fill_nan_gap_filling
             (blank freq_D (Settings.set default_settings
                (Settings.Kfill_nan (PStr "interpolate"))))) eq_refl) eq_refl).
  - exact (proj2 (fill_nan_gap_filling (blank None default_settings))
             eq_refl gap3).
Defined.

(** The same three policies through the constructor: validation fills the
    gap, and the derived series is the filled one. *)
Example gap3_constructed :
  derived (init gap3 "h" None
             [Settings.Kfill_nan (PStr "interpolate")] []) =
    Some [(jan1, 1%float); (jan1 + day, 2%float); (jan1 + 2 * day, 3%float)]
  /\ derived (init gap3 "h" None [Settings.Kfill_nan (PStr "drop")] []) =
    Some [(jan1, 1%float); (jan1 + 2 * day, 3%float)]
  /\ derived (init gap3 "h" None [Settings.Kfill_nan (PFloat 5%float)] []) =
    Some [(jan1, 1%float); (jan1 + day, 5%float); (jan1 + 2 * day, 3%float)].
Proof. repeat split; vm_compute; reflexivity. Qed.

(** Without a frequency, configured or inferred, the gap row is dropped
    also under the policy "interpolate". *)
Example gap_dropped_without_frequency :
  let rows := [(jan1, 1%float); (jan1 + day, PrimFloat.nan);
               (jan1 + 3 * day, 3%float)] in
  derived (init rows "h" None
             [Settings.Kfreq None;
              Settings.Kfill_nan (PStr "interpolate")] []) =
    Some [(jan1, 1%float); (jan1 + 3 * day, 3%float)].
Proof. vm_compute. reflexivity. Qed.

(* ================================================================== *)
(** ** Numeric constants as policies *)
(* ================================================================== *)

Lemma number_not_float_tests method :
  number_not_float method ->
  (forall s, is_str method s = false) /\ is_float method = None.
Proof. destruct method; simpl; intros H; try contradiction; auto. Qed.

(** C10.  In [sample_up], [fill_nan], [fill_before] and [fill_after] a
    policy of type [float] fills the new rows with that number, while a
    number of another type (an [int]) is not a fill: the step returns the
    reindexed series with its gaps as they are and raises the caution for
    an unsupported option. *)
Theorem only_float_is_a_constant_fill
    (self : TimeSeries) (series : Series) (method : Policy) :
  let st := settings self in
  (Settings.sample_up st = method ->
     let reindexed := pd.asfreq series (Settings.freq st) pd.NoFill in
     (forall v, method = PFloat v ->
        sample_up self series = filled_with v reindexed) /\
     (number_not_float method ->
        sample_up self series = left_unfilled method reindexed)) /\
  (Settings.fill_nan st = method -> freq_original self <> None ->
     let reindexed := pd.asfreq series (freq_original self) pd.NoFill in
     (forall v, method = PFloat v ->
        fill_nan self series = filled_with v reindexed) /\
     (number_not_float method ->
        fill_nan self series = left_unfilled method reindexed)) /\
  (Settings.fill_before st = method ->
     forall tmin, Settings.tmin st = Some tmin ->
     at_or_after_min tmin series = false ->
     let reindexed := reindex_before self series tmin in
     (forall v, method = PFloat v ->
        fill_before self series = filled_with v reindexed) /\
     (number_not_float method ->
        fill_before self series = left_unfilled method reindexed)) /\
  (Settings.fill_after st = method ->
     forall tmax, Settings.tmax st = Some tmax ->
     at_or_before_max tmax series = false ->
     let reindexed := reindex_after self series tmax in
     (forall v, method = PFloat v ->
        fill_after self series = filled_with v reindexed) /\
     (number_not_float method ->
        fill_after self series = left_unfilled method reindexed)).
Proof.
  cbv zeta. repeat split.
  - intros v ->. unfold sample_up. rewrite H. reflexivity.
  - intros Hn. destruct (number_not_float_tests _ Hn) as [Hs Hf].
    unfold sample_up, in_strs. rewrite H. simpl. rewrite !Hs, Hf.
    reflexivity.
  - intros v ->. unfold fill_nan. rewrite H.
    destruct (freq_original self); [reflexivity | congruence].
  - intros Hn. destruct (number_not_float_tests _ Hn) as [Hs Hf].
    unfold fill_nan. rewrite H.
    destruct (freq_original self); [|congruence].
    rewrite !Hs, Hf. reflexivity.
  - intros v ->. unfold fill_before. rewrite H, H0, H1. reflexivity.
  - intros Hn. destruct (number_not_float_tests _ Hn) as [Hs Hf].
    unfold fill_before, fill_extension. rewrite H, H0, H1, Hs, Hf.
    reflexivity.
  - intros v ->. unfold fill_after. rewrite H, H0, H1. reflexivity.
  - intros Hn. destruct (number_not_float_tests _ Hn) as [Hs Hf].
    unfold fill_after, fill_extension. rewrite H, H0, H1, Hs, Hf.
    reflexivity.
Qed.

Lemma only_float_is_a_constant_fill_witness :
  sample_up int_policies (daily 3) =
    left_unfilled (PInt 5)
      (pd.asfreq (daily 3) (Some (mkFreq 12 Hours)) pd.NoFill)
  /\ fill_nan int_policies (daily 3) =
    left_unfilled (PInt 5) (pd.asfreq (daily 3) freq_D pd.NoFill)
  /\ fill_before int_policies (daily 3) =
    left_unfilled (PInt 5)
      (reindex_before int_policies (daily 3) (jan1 - 2 * day))
  /\ fill_after int_policies (daily 3) =
    left_unfilled (PInt 5)
      (reindex_after int_policies (daily 3) (jan1 + 4 * day)).
Proof.
  pose proof (only_float_is_a_constant_fill int_policies (daily 3) (PInt 5))
    as T.
  cbv zeta in T. destruct T as [T1 [T2 [T3 T4]]].
  split; [|split; [|split]].
  - exact (proj2 (T1 eq_refl) I).
  - refine (proj2 (T2 eq_refl _) I). discriminate.
  - exact (proj2 (T3 eq_refl _ eq_refl eq_refl) I).
  - exact (proj2 (T4 eq_refl _ eq_refl eq_refl) I).
Defined.

(** What the [int] 5 gives when twelve-hourly rows are asked of a daily
    series: the new rows stay NaN. *)
Example sample_up_int_policy :
  sample_up int_policies (daily 2) =
  Done [(jan1, 1%float); (jan1 + 12 * hour, PrimFloat.nan);
        (jan1 + day, 2%float)]
       [UnsupportedOption "sample_up" (PInt 5)].
Proof. vm_compute. reflexivity. Qed.

(* ================================================================== *)
(** ** Validation: the fallback frequency and its caution *)
(* ================================================================== *)

(** C5 (the code at the failing input).  With the precipitation defaults
    the policy for gaps is the float 0.0; the rows of [irregular] have no
    constant spacing, so the configured frequency becomes the original
    frequency, and no caution is raised: 0.0 is a false value in the test
    that guards the caution. *)
Theorem validate_series_zero_fill_no_caution :
  let self := blank None (settings_of_type "prec") in
  Settings.fill_nan (settings self) = PFloat 0%float /\
  pd.infer_freq (index irregular) = Done None [] /\
  validate_series self irregular =
    Done (with_freq_original self freq_D, irregular, irregular) [].
Proof. cbv zeta. repeat split. Qed.

(** [fill_nan] raises no caution but the one for an unsupported option. *)
Lemma fill_nan_cautions (self : TimeSeries) s s' w nm :
  fill_nan self s = Done s' w -> ~ In (UserFrequencyApplied nm) w.
Proof.
  unfold fill_nan. destruct (freq_original self).
  - intros Hb. apply bind_inv in Hb.
    destruct Hb as [a [w1 [w2 [Ha [Hk ->]]]]].
    assert (w1 = []).
    { unfold pd.asfreq in Ha.
      destruct (pd.index_min s), (pd.index_max s);
        try (inversion Ha; reflexivity).
      apply index_reindex in Ha. tauto. }
    subst w1. simpl.
    destruct (is_str _ "drop"); [inversion Hk; simpl; tauto|].
    destruct (is_str _ "mean"); [inversion Hk; simpl; tauto|].
    destruct (is_str _ "interpolate"); [inversion Hk; simpl; tauto|].
    destruct (is_float _); inversion Hk; simpl; [tauto|].
    intros [E|[]]. discriminate.
  - intros Hb. inversion Hb. simpl. tauto.
Qed.

(** When no frequency is inferred, [validate_series] adopts the configured
    frequency, and it raises its caution exactly when the policy for gaps
    is a true value other than "drop". *)
Lemma validate_series_fallback (self : TimeSeries) (series : Series) r w :
  let sorted := pd.sort_index series in
  let trimmed := pd.loc sorted (pd.first_valid_index sorted)
                        (pd.last_valid_index sorted) in
  pd.infer_freq (index trimmed) = Done None [] ->
  validate_series self series = Done r w ->
  let method := Settings.fill_nan (settings self) in
  freq_original (fst (fst r)) = Settings.freq (settings self) /\
  (In (UserFrequencyApplied (name self)) w <->
   truthy method = true /\ is_str method "drop" = false).
Proof.
  cbv zeta. intros Hinf. unfold validate_series. rewrite Hinf.
  change (Done (@None Freq) []) with (ret (@None Freq)).
  rewrite bind_ret_l.
  set (self' := with_freq_original self (Settings.freq (settings self))).
  set (method := Settings.fill_nan (settings self')).
  set (trimmed := pd.loc _ _ _).
  intros H. apply bind_inv in H.
  destruct H as [a [w1 [w2 [Ha [Hk ->]]]]].
  apply bind_inv in Hk. destruct Hk as [s1 [w3 [w4 [Hs [Hr ->]]]]].
  inversion Hr; subst; clear Hr. rewrite app_nil_r.
  apply bind_inv in Ha. destruct Ha as [u [w5 [w6 [Hu [Hret ->]]]]].
  inversion Hret; subst; clear Hret. rewrite app_nil_r.
  split; [reflexivity|].
  assert (Hw3 : ~ In (UserFrequencyApplied (name self)) w3).
  { destruct (pd.hasnans trimmed).
    - eapply fill_nan_cautions; eauto.
    - inversion Hs; simpl; tauto. }
  rewrite in_app_iff. change (Settings.fill_nan (settings self)) with method.
  destruct (truthy method) eqn:Ht; destruct (is_str method "drop") eqn:Hd;
    simpl in Hu; inversion Hu; subst; simpl; intuition congruence.
Qed.

(* ================================================================== *)
(** ** Extension of the window: [fill_before] and [fill_after] *)
(* ================================================================== *)

Lemma index_fill_extension method s s' w :
  fill_extension method s = Done s' w -> index s' = index s.
Proof.
  unfold fill_extension.
  destruct (is_str method "mean").
  - intros H; inversion H. apply index_fillna.
  - destruct (is_float method); intros H; inversion H; subst;
      [apply index_fillna | reflexivity].
Qed.

Lemma fill_extension_total method s :
  exists s' w, fill_extension method s = Done s' w.
Proof.
  unfold fill_extension, not_supported, warn, bind, ret.
  destruct (is_str method "mean"); [eauto|].
  destruct (is_float method); eauto.
Qed.

Lemma union_nil_r a : pd.union a [] = a.
Proof. reflexivity. Qed.

Lemma union_nil_l b : pd.union [] b = b.
Proof.
  unfold pd.union. destruct b as [|t r]; [reflexivity|].
  destruct (pd.labels_eqb [] (t :: r)) eqn:E; [|reflexivity].
  apply labels_eqb_eq in E. discriminate.
Qed.

(** A range that starts less than one interval before its end, or after
    it, has at most one label. *)
Lemma removelast_short_range a b dt :
  0 < dt -> b < a + dt -> removelast (pd.date_range a b dt) = [].
Proof.
  intros Hdt Hb. unfold pd.date_range.
  destruct (Z.ltb_spec b a); [reflexivity|].
  replace ((b - a) / dt) with 0; [reflexivity|].
  symmetry. apply Z.div_small. lia.
Qed.

Lemma at_or_before_max_false series tmax hi :
  pd.index_max series = Some hi -> hi < tmax ->
  at_or_before_max tmax series = false.
Proof.
  intros H Hlt. unfold at_or_before_max. rewrite H. apply Z.leb_gt, Hlt.
Qed.

Lemma at_or_after_min_false series tmin lo :
  pd.index_min series = Some lo -> tmin < lo ->
  at_or_after_min tmin series = false.
Proof.
  intros H Hlt. unfold at_or_after_min. rewrite H. apply Z.leb_gt, Hlt.
Qed.

(** C2 (what the code does when [tmax] lies after the last label).  The
    range of [fill_after] starts at the corrected [tmax] and ends at the
    last label of the series, so it holds no label to add: the series is
    reindexed on the index the object had before, and the result has that
    index, with no label up to [tmax] added. *)
Theorem fill_after_adds_no_label
    (self : TimeSeries) (series : Series) (tmax hi : Timestamp) (f : Freq) :
  Settings.tmax (settings self) = Some tmax ->
  Settings.freq (settings self) = Some f ->
  pd.index_max series = Some hi ->
  hi < tmax ->
  fill_after self series =
    (s <- pd.reindex series (index (self_rows self)) pd.NoFill ;;
     fill_extension (Settings.fill_after (settings self)) s) /\
  forall s w, fill_after self series = Done s w ->
              index s = index (self_rows self).
Proof.
  intros Htmax Hfreq Hmax Hlt.
  assert (E : fill_after self series =
    (s <- pd.reindex series (index (self_rows self)) pd.NoFill ;;
     fill_extension (Settings.fill_after (settings self)) s)).
  { unfold fill_after. rewrite Htmax.
    rewrite (at_or_before_max_false _ Hmax Hlt).
    unfold reindex_after, utils.get_time_offset. rewrite Hfreq, Hmax.
    rewrite bind_ret_l.
    pose proof (freq_seconds_pos f) as Hdt.
    rewrite removelast_short_range, union_nil_r; [reflexivity|exact Hdt|].
    pose proof (Z.mod_pos_bound tmax (freq_seconds f) Hdt). lia. }
  split; [exact E|].
  intros s w H. rewrite E in H. apply bind_inv in H.
  destruct H as [a [w1 [w2 [Ha [Hk _]]]]].
  apply index_fill_extension in Hk. apply index_reindex in Ha.
  destruct Ha as [Ha _]. congruence.
Qed.

Lemma fill_after_adds_no_label_witness :
  fill_after (fresh_prec [Settings.Ktmax (Some (jan1 + 5 * day))]) (daily 3)
  = Done [] [].
Proof.
  rewrite (proj1 (@fill_after_adds_no_label
                    (fresh_prec [Settings.Ktmax (Some (jan1 + 5 * day))])
                    (daily 3) (jan1 + 5 * day) (jan1 + 2 * day)
                    (mkFreq 1 Days) eq_refl eq_refl eq_refl eq_refl)).
  reflexivity.
Defined.

(** The constructor with a [tmax] three days after the last of three daily
    rows: the derived series is empty. *)
Example construction_with_tmax :
  derived (init (daily 3) "h" (Some "prec"%string)
             [Settings.Ktmax (Some (jan1 + 5 * day))] []) = Some [].
Proof. vm_compute. reflexivity. Qed.


(** What [fill_before] returns for an object that holds no rows yet (the
    state in which the constructor runs the pipeline) and a [tmin] before
    the first label: the index is the extension alone.  Every label lies on
    the grid of the frequency and before the first label of the series, so
    no row of the series is in the result. *)
Lemma fill_before_fresh
    (self : TimeSeries) (series : Series) (tmin lo : Timestamp) (f : Freq) :
  self_rows self = [] ->
  Settings.tmin (settings self) = Some tmin ->
  Settings.freq (settings self) = Some f ->
  pd.index_min series = Some lo ->
  tmin < lo ->
  pd.is_unique (index series) = true ->
  exists s w,
    fill_before self series = Done s w /\
    index s = removelast (pd.date_range (tmin - tmin mod freq_seconds f) lo
                                        (freq_seconds f)) /\
    forall t, In t (index s) -> t < lo /\ t mod freq_seconds f = 0.
Proof.
  intros Hrows Htmin Hfreq Hmin Hlt Huniq.
  pose proof (freq_seconds_pos f) as Hdt.
  unfold fill_before. rewrite Htmin.
  rewrite (at_or_after_min_false _ Hmin Hlt).
  unfold reindex_before, utils.get_time_offset.
  rewrite Hfreq, Hmin, Hrows, bind_ret_l. simpl index at 1.
  rewrite union_nil_l.
  set (ext := removelast _).
  destruct (reindex_unique series ext pd.NoFill Huniq) as [s1 Hs1].
  rewrite Hs1.
  destruct (fill_extension_total (Settings.fill_before (settings self)) s1)
    as [s2 [w2 Hs2]].
  exists s2, w2. rewrite bind_Done, Hs2. split; [reflexivity|].
  apply index_fill_extension in Hs2. apply index_reindex in Hs1.
  destruct Hs1 as [Hs1 _].
  assert (Hidx : index s2 = ext) by congruence.
  split; [exact Hidx|].
  intros t Ht. rewrite Hidx in Ht. unfold ext in Ht.
  apply removelast_date_range_In in Ht; [|exact Hdt].
  destruct Ht as [[k [Hk ->]] Hle]. split; [lia|].
  rewrite Z.mod_add by lia.
  rewrite <- Zdiv.Zminus_mod_idemp_l, Z.sub_diag. apply Z.mod_0_l. lia.
Qed.

(** C1 (the code at the spec's own example).  Three daily rows from
    1990-01-01, the precipitation defaults, and [tmin] at 1989-06-15
    12:00.  The derived series has the 200 midnights from 1989-06-15 to
    1989-12-31 as its index, all of them NaN: the labels of 1990 and their
    values are gone. *)
Theorem construction_with_tmin_loses_rows :
  let r := derived (init (daily 3) "h" (Some "prec"%string)
                      [Settings.Ktmin (Some (timestamp 1989 6 15 12 0))] []) in
  option_map index r =
    Some (pd.date_range (timestamp 1989 6 15 0 0)
                        (timestamp 1989 12 31 0 0) day) /\
  option_map (forallb (fun row => isnull (snd row))) r = Some true /\
  option_map (existsb (fun row => jan1 <=? fst row)) r = Some false.
Proof. cbv zeta. repeat split; vm_compute; reflexivity. Qed.

(* ================================================================== *)
(** ** Downsampling *)
(* ================================================================== *)

Lemma spaced_tl dt l : spaced dt l -> spaced dt (tl l).
Proof. destruct l as [|t [|t' r]]; simpl; tauto. Qed.

Lemma tl_date_range_In a b dt t :
  0 < dt ->
  In t (tl (pd.date_range a b dt)) <->
  exists k, 1 <= k /\ t = a + k * dt /\ t <= b.
Proof.
  intros Hdt. unfold pd.date_range.
  destruct (Z.ltb_spec b a) as [Hlt|Hle].
  - split; [intros []|]. intros [k [Hk [-> Hb]]]. nia.
  - cbn [seq map tl]. rewrite in_map_iff. split.
    + intros [k [<- Hin]]. apply in_seq in Hin.
      exists (Z.of_nat k). split; [lia|]. split; [reflexivity|].
      assert (0 <= (b - a) / dt) by (apply Z.div_pos; lia).
      assert (dt * ((b - a) / dt) <= b - a) by (apply Z.mul_div_le; lia).
      nia.
    + intros [k [Hk [-> Hb]]]. exists (Z.to_nat k). split.
      * rewrite Z2Nat.id by lia. reflexivity.
      * apply in_seq. split; [lia|].
        assert (k <= (b - a) / dt) by (apply Z.div_le_lower_bound; lia).
        lia.
Qed.

(** The bin edges reach around the labels: every label from [first] to
    [last] lies in a bin that ends on a right edge up to the last one. *)
Lemma range_edges_cover (f : Freq) (first last t : Timestamp) :
  first <= t <= last ->
  let dt := freq_seconds f in
  exists k, 1 <= k /\
    fst (pd.range_edges f first last) + (k - 1) * dt < t /\
    t <= fst (pd.range_edges f first last) + k * dt /\
    fst (pd.range_edges f first last) + k * dt
      <= snd (pd.range_edges f first last).
Proof.
  intros Ht dt. pose proof (freq_seconds_pos f) as Hdt. fold dt in Hdt.
  assert (Hgrid : forall lo hi j,
            lo < first -> last <= hi -> hi = lo + dt * j ->
            exists k, 1 <= k /\ lo + (k - 1) * dt < t /\
                      t <= lo + k * dt /\ lo + k * dt <= hi).
  { intros lo hi j Hlo Hhi Hj.
    exists ((t - lo + dt - 1) / dt).
    pose proof (Z.div_mod (t - lo + dt - 1) dt ltac:(lia)) as Hdm.
    pose proof (Z.mod_pos_bound (t - lo + dt - 1) dt Hdt) as Hb.
    set (k := (t - lo + dt - 1) / dt) in *.
    assert (1 <= k) by nia.
    assert (lo + (k - 1) * dt < t) by nia.
    assert (t <= lo + k * dt) by nia.
    repeat split; try assumption.
    assert (k - 1 < j) by nia. nia. }
  unfold pd.range_edges. fold dt.
  destruct (pd.is_days (alias f) && negb (day mod dt =? 0)) eqn:Hcase.
  - (* several days: edges on midnights *)
    apply andb_true_iff in Hcase. destruct Hcase as [Hd _].
    assert (Hm : exists m, 1 <= m /\ dt = m * day).
    { unfold dt, freq_seconds. destruct (alias f); try discriminate.
      exists (Z.pos (mult f)). split; [lia | reflexivity]. }
    destruct Hm as [m [Hm Edt]].
    cbn [fst snd]. unfold pd.normalize_ts.
    assert (Hday : 0 < day) by (unfold day; lia).
    pose proof (Z.div_mod first day ltac:(lia)) as Hf.
    pose proof (Z.mod_pos_bound first day Hday) as Hfb.
    pose proof (Z.div_mod last day ltac:(lia)) as Hl.
    pose proof (Z.mod_pos_bound last day Hday) as Hlb.
    set (lo := first - first mod day - dt).
    exists ((t - lo + dt - 1) / dt).
    pose proof (Z.div_mod (t - lo + dt - 1) dt ltac:(lia)) as Hdm.
    pose proof (Z.mod_pos_bound (t - lo + dt - 1) dt Hdt) as Hb.
    set (k := (t - lo + dt - 1) / dt) in *.
    assert (lo < t) by (unfold lo; lia).
    assert (1 <= k) by nia.
    assert (lo + (k - 1) * dt < t) by nia.
    assert (t <= lo + k * dt) by nia.
    repeat split; try assumption.
    (* the edge before the bin is a midnight before [last] *)
    assert (Hmid : lo + (k - 1) * dt = day * (first / day - m + (k - 1) * m)).
    { unfold lo. rewrite Edt. lia. }
    assert (first / day - m + (k - 1) * m <= last / day) by nia.
    nia.
  - (* edges a whole number of intervals after the midnight *)
    cbn [fst snd].
    set (anchor := pd.normalize_ts first).
    pose proof (Z.div_mod (first - anchor) dt ltac:(lia)) as Hf.
    pose proof (Z.mod_pos_bound (first - anchor) dt Hdt) as Hfb.
    pose proof (Z.div_mod (last - anchor) dt ltac:(lia)) as Hl.
    pose proof (Z.mod_pos_bound (last - anchor) dt Hdt) as Hlb.
    set (qf := (first - anchor) / dt) in *.
    set (ql := (last - anchor) / dt) in *.
    destruct (Z.ltb_spec 0 ((first - anchor) mod dt));
      destruct (Z.ltb_spec 0 ((last - anchor) mod dt)).
    + apply (Hgrid _ _ (ql + 1 - qf)); lia.
    + apply (Hgrid _ _ (ql - qf)); lia.
    + apply (Hgrid _ _ (ql + 1 - qf + 1)); lia.
    + apply (Hgrid _ _ (ql - qf + 1)); lia.
Qed.

Lemma sample_down_recognised (self : TimeSeries) (series : Series) a :
  down_agg (Settings.sample_down (settings self)) = Some a ->
  sample_down self series =
    if is_str (Settings.sample_down (settings self)) "drop"
    then s <- pd.resample_right (Settings.freq (settings self)) a series ;;
         ret (pd.dropna s)
    else pd.resample_right (Settings.freq (settings self)) a series.
Proof.
  unfold down_agg, sample_down.
  destruct (Settings.sample_down (settings self)) as [|s| | |];
    try discriminate.
  unfold is_str.
  destruct (String.eqb s "mean") eqn:E1.
  { apply String.eqb_eq in E1. subst s. intros H; inversion H. reflexivity. }
  destruct (String.eqb s "drop") eqn:E2.
  { intros H; inversion H. reflexivity. }
  destruct (String.eqb s "sum"); [intros H; inversion H; reflexivity|].
  destruct (String.eqb s "min"); [intros H; inversion H; reflexivity|].
  destruct (String.eqb s "max"); [intros H; inversion H; reflexivity|].
  discriminate.
Qed.

(** C6.  For every recognised method [sample_down] puts the rows of the
    series in right-closed, right-labelled buckets: an output row with
    label [L] holds the aggregate of the rows with a timestamp after
    [L - dt] and up to [L] included, so a row exactly on a boundary counts
    for the bucket that ends there.  For the aggregating methods the
    labels are [dt] apart and every row of the series lies in the bucket of
    exactly one of them. *)
Theorem sample_down_right_closed
    (self : TimeSeries) (series : Series) (f : Freq) (a : pd.Agg) :
  let method := Settings.sample_down (settings self) in
  let dt := freq_seconds f in
  Settings.freq (settings self) = Some f ->
  down_agg method = Some a ->
  exists out,
    sample_down self series = Done out [] /\
    (forall label v, In (label, v) out ->
       v = pd.aggregate a
             (values (filter (fun r => (label - dt <? fst r)
                                       && (fst r <=? label)) series))) /\
    (is_str method "drop" = false ->
       spaced dt (index out) /\
       forall r, In r series ->
         exists label,
           In label (index out) /\ label - dt < fst r <= label /\
           forall label', In label' (index out) ->
                          label' - dt < fst r <= label' -> label' = label).
Proof.
  intros method dt Hfreq Hagg.
  pose proof (freq_seconds_pos f) as Hdt. fold dt in Hdt.
  rewrite (sample_down_recognised self series Hagg). fold method.
  rewrite Hfreq. unfold pd.resample_right.
  destruct (pd.index_min series) as [first|] eqn:Hmin.
  2:{ apply index_min_None in Hmin. subst series.
      exists []. destruct (is_str method "drop"); simpl;
        (split; [reflexivity|]); (split; [intros ? ? []|]);
        intros _; (split; [exact I | intros ? []]). }
  destruct (pd.index_max series) as [last|] eqn:Hmax.
  2:{ apply index_max_None in Hmax. subst series. discriminate. }
  destruct (pd.range_edges f first last) as [lo hi] eqn:Hedges. fold dt.
  set (labels := tl (pd.date_range lo hi dt)).
  set (row := fun label => (label, pd.aggregate a
                                     (values (pd.bucket dt label series)))).
  assert (Hrow : forall label v, In (label, v) (map row labels) ->
            v = pd.aggregate a
                  (values (filter (fun r => (label - dt <? fst r)
                                            && (fst r <=? label)) series))).
  { intros label v Hin. apply in_map_iff in Hin.
    destruct Hin as [l [E _]]. unfold row in E. inversion E; subst.
    reflexivity. }
  destruct (is_str method "drop") eqn:Hdrop.
  - exists (pd.dropna (map row labels)). split; [reflexivity|].
    split; [|discriminate].
    intros label v Hin. apply filter_In in Hin. apply Hrow, Hin.
  - exists (map row labels). split; [reflexivity|].
    split; [exact Hrow|]. intros _.
    assert (Hidx : index (map row labels) = labels).
    { unfold index. rewrite map_map. apply map_id. }
    rewrite Hidx. split.
    + apply spaced_tl, date_range_spaced.
    + intros r Hr.
      destruct (index_min_spec _ Hmin) as [_ Hlo].
      destruct (index_max_spec _ Hmax) as [_ Hhi].
      assert (Hin : In (fst r) (index series)) by (apply in_map; exact Hr).
      destruct (@range_edges_cover f first last (fst r)
                  (conj (Hlo _ Hin) (Hhi _ Hin))) as [k [Hk [H1 [H2 H3]]]].
      rewrite Hedges in H1, H2, H3. cbn [fst snd] in H1, H2, H3.
      fold dt in H1, H2, H3.
      exists (lo + k * dt). split; [|split].
      * apply tl_date_range_In; [exact Hdt|]. exists k. auto.
      * lia.
      * intros label' Hl' Hb. apply tl_date_range_In in Hl'; [|exact Hdt].
        destruct Hl' as [k' [Hk' [-> _]]].
        assert (k' = k) by nia. subst k'. reflexivity.
Qed.

Lemma sample_down_right_closed_witness :
  exists out, sample_down (fresh_prec []) half_daily = Done out [] /\
    forall r, In r half_daily ->
      exists label, In label (index out) /\ label - day < fst r <= label.
Proof.
  destruct (@sample_down_right_closed (fresh_prec []) half_daily
              (mkFreq 1 Days) pd.AggSum eq_refl eq_refl)
    as [out [Hout [_ Hcover]]].
  exists out. split; [exact Hout|].
  intros r Hr. destruct (proj2 (Hcover eq_refl) r Hr) as [label [Hl [Hb _]]].
  exists label. split; assumption.
Defined.

(** The daily sums of [half_daily]: the bucket labelled 24:00 holds the
    values of 12:00 and 24:00; the value of 00:00 is in the bucket that
    ends at 00:00, and a value at 00:00 of the day after falls in the next
    bucket. *)
Example half_daily_sums :
  sample_down (fresh_prec []) half_daily =
    Done [(jan1, 1%float); (jan1 + day, 6%float)] [] /\
  sample_down (fresh_prec []) (half_daily ++ [(jan1 + 2 * day, 8%float)]) =
    Done [(jan1, 1%float); (jan1 + day, 6%float);
          (jan1 + 2 * day, 8%float)] [] /\
  derived (init half_daily "h" (Some "prec"%string) [] []) =
    Some [(jan1, 1%float); (jan1 + day, 6%float)].
Proof. repeat split; vm_compute; reflexivity. Qed.

(* ================================================================== *)
(** ** Unsupported policy values *)
(* ================================================================== *)









(** The same through the constructor: three daily rows, twelve-hourly
    rows asked for with the policy "median".  The derived series has two
    NaN rows that the validated series did not have. *)
Example unsupported_sample_up_constructed :
  match init (daily 3) "h" None
             [Settings.Kfreq (Some (mkFreq 12 Hours));
              Settings.Ksample_up (PStr "median")] [] with
  | Done (self, _) w =>
      series self = daily 3 /\
      self_rows self =
        [(jan1, 1%float); (jan1 + 12 * hour, PrimFloat.nan);
         (jan1 + day, 2%float); (jan1 + 36 * hour, PrimFloat.nan);
         (jan1 + 2 * day, 3%float)] /\
      In (UnsupportedOption "sample_up" (PStr "median")) w
  | Raised _ => False
  end.
Proof. vm_compute. repeat split. left. reflexivity. Qed.

(** Two more places where the code parts from the claim: the caution of
    [fill_nan] (and of [fill_before], [fill_after]) gives [sample_up] as
    the step, and [normalize] raises no caution. *)
Example unsupported_fill_nan_names_sample_up :
  fill_nan median_policies gap3 =
    Done gap3 [UnsupportedOption "sample_up" (PStr "median")] /\
  normalize median_policies gap3 = Done gap3 [].
Proof. split; vm_compute; reflexivity. Qed.

(* ================================================================== *)
(** ** The stored series and the argument of the constructor *)
(* ================================================================== *)

Lemma insert_row_perm r s : Permutation (r :: s) (pd.insert_row r s).
Proof.
  induction s as [|r' s IH]; simpl; [apply Permutation_refl|].
  destruct (fst r <=? fst r'); [apply Permutation_refl|].
  eapply perm_trans; [apply perm_swap|]. apply perm_skip, IH.
Qed.

Lemma sort_index_perm s : Permutation s (pd.sort_index s).
Proof.
  induction s as [|r s IH]; simpl; [constructor|].
  eapply perm_trans; [apply perm_skip, IH | apply insert_row_perm].
Qed.

Lemma insert_row_hd r a s :
  label_le a r -> HdRel label_le a s -> HdRel label_le a (pd.insert_row r s).
Proof.
  intros Har Hs. destruct s as [|r' s]; simpl; [constructor; exact Har|].
  destruct (fst r <=? fst r'); constructor; [exact Har|].
  inversion Hs; assumption.
Qed.

Lemma insert_row_sorted r s :
  chronological s -> chronological (pd.insert_row r s).
Proof.
  unfold chronological. induction s as [|r' s IH]; intros Hs; simpl.
  - repeat constructor.
  - destruct (Z.leb_spec (fst r) (fst r')) as [Hle|Hgt].
    + constructor; [exact Hs|]. constructor. exact Hle.
    + inversion Hs; subst. constructor; [apply IH; assumption|].
      apply insert_row_hd; [unfold label_le; lia | assumption].
Qed.

Lemma sort_index_sorted s : chronological (pd.sort_index s).
Proof.
  induction s as [|r s IH]; simpl; [constructor|].
  apply insert_row_sorted, IH.
Qed.

Lemma sort_index_chronological s :
  chronological s -> pd.sort_index s = s.
Proof.
  unfold chronological. induction s as [|r s IH]; intros Hs; [reflexivity|].
  inversion Hs; subst. simpl. rewrite IH by assumption.
  destruct s as [|r' s]; [reflexivity|]. simpl.
  match goal with H : HdRel _ _ _ |- _ => inversion H; subst end.
  unfold label_le in *.
  destruct (Z.leb_spec (fst r) (fst r')); [reflexivity | lia].
Qed.

(** [validate_series] leaves the stored series, the name and the type of
    the object as they are, and leaves its argument sorted. *)
Lemma validate_series_frame self series self' validated argument w :
  validate_series self series = Done (self', validated, argument) w ->
  series_original self' = series_original self /\
  self_rows self' = self_rows self /\
  name self' = name self /\ type self' = type self /\
  argument = pd.sort_index series.
Proof.
  unfold validate_series. intros H.
  apply bind_inv in H. destruct H as [freq [w1 [w2 [_ [H _]]]]].
  apply bind_inv in H. destruct H as [self1 [w3 [w4 [Hself [H _]]]]].
  apply bind_inv in H. destruct H as [s1 [w5 [w6 [_ [H _]]]]].
  inversion H; subst. clear H.
  destruct freq as [f|].
  - destruct (Settings.freq (settings (with_freq_original self (Some f))));
      inversion Hself; subst; simpl; auto.
  - apply bind_inv in Hself. destruct Hself as [u [w7 [w8 [_ [H _]]]]].
    inversion H; subst. simpl. auto.
Qed.

(** [update_series] leaves the stored series as it is. *)
Lemma update_series_frame self kwargs self' w :
  update_series self kwargs = Done self' w ->
  series_original self' = series_original self /\
  name self' = name self /\ type self' = type self /\
  series self' = series self /\
  freq_original self' = freq_original self /\
  settings self' = Settings.update (settings self) kwargs.
Proof.
  unfold update_series. destruct kwargs as [|k kwargs].
  - intros H; inversion H; subst. simpl. auto 6.
  - intros H.
    apply bind_inv in H. destruct H as [s1 [? [? [_ [H _]]]]].
    apply bind_inv in H. destruct H as [s2 [? [? [_ [H _]]]]].
    apply bind_inv in H. destruct H as [s3 [? [? [_ [H _]]]]].
    apply bind_inv in H. destruct H as [s4 [? [? [_ [H _]]]]].
    inversion H; subst. simpl. auto 6.
Qed.

(** C9, as the code has it.  The constructor stores the series as it was
    supplied, and no later update changes what is stored.  The argument
    object itself is sorted in place by [validate_series] before a copy is
    taken: it keeps its rows, in chronological order, and is left as it was
    only when it was already in that order. *)
Theorem constructor_stores_and_sorts
    (series : Series) (nm : string) (ty : option string)
    (st kwargs : list Settings.item)
    (self : TimeSeries) (argument : Series) (w : list Caution) :
  init series nm ty st kwargs = Done (self, argument) w ->
  series_original self = series /\
  (forall kw self' w',
     update_series self kw = Done self' w' ->
     series_original self' = series) /\
  argument = pd.sort_index series /\
  Permutation series argument /\
  chronological argument /\
  (chronological series -> argument = series).
Proof.
  unfold init. intros H.
  apply bind_inv in H. destruct H as [[[self1 validated] arg] [w1 [w2 [Hv [H _]]]]].
  apply bind_inv in H. destruct H as [self2 [w3 [w4 [Hu [H _]]]]].
  inversion H; subst. clear H.
  apply validate_series_frame in Hv. simpl in Hv.
  destruct Hv as [Ho [_ [_ [_ Harg]]]].
  apply update_series_frame in Hu. destruct Hu as [Ho2 _].
  simpl in Ho2.
  assert (Hstored : series_original self = series) by congruence.
  split; [exact Hstored|]. split.
  { intros kw self' w' Hup. apply update_series_frame in Hup.
    destruct Hup as [Hup _]. congruence. }
  subst argument. split; [reflexivity|].
  split; [apply sort_index_perm|].
  split; [apply sort_index_sorted|].
  apply sort_index_chronological.
Qed.

Lemma constructor_stores_and_sorts_witness :
  exists self w,
    init unsorted "h" None [] [] = Done (self, daily 3) w /\
    series_original self = unsorted.
Proof.
  assert (H : exists self w,
            init unsorted "h" None [] [] = Done (self, daily 3) w).
  { vm_compute. eexists. eexists. reflexivity. }
  destruct H as [self [w H]]. exists self, w. split; [exact H|].
  exact (proj1 (@constructor_stores_and_sorts unsorted "h" None [] []
                  self (daily 3) w H)).
Defined.

(** C9 as the claim states it fails: after construction the argument
    object does not hold its rows in the order in which it was supplied. *)
Lemma constructor_reorders_argument :
  exists self argument w,
    init unsorted "h" None [] [] = Done (self, argument) w /\
    argument <> unsorted.
Proof.
  vm_compute. do 3 eexists. split; [reflexivity|]. discriminate.
Qed.

(* ================================================================== *)
(** ** Export and reconstruction *)
(* ================================================================== *)

Lemma update_items s s' : Settings.update s (Settings.items s') = s'.
Proof. destruct s, s'. reflexivity. Qed.

Lemma validate_series_parts self series :
  validate_series self series =
  (let argument := pd.sort_index series in
   let trimmed := pd.loc argument (pd.first_valid_index argument)
                         (pd.last_valid_index argument) in
   freq <- pd.infer_freq (index trimmed) ;;
   self1 <- frequency_found self freq ;;
   validate_rest self1 argument trimmed).
Proof. reflexivity. Qed.

Lemma with_settings_same self : with_settings self (settings self) = self.
Proof. destruct self; reflexivity. Qed.

Lemma frequency_found_again self freq self1 w :
  frequency_found self freq = Done self1 w ->
  frequency_found (with_settings self (settings self1)) freq = Done self1 w.
Proof.
  unfold frequency_found. destruct freq as [f|].
  - cbn [with_freq_original settings].
    destruct (Settings.freq (settings self)) eqn:Hf.
    + intros H; inversion H; subst. cbn [with_freq_original settings].
      rewrite with_settings_same. cbn [with_freq_original settings].
      rewrite Hf. reflexivity.
    + intros H; inversion H; subst. reflexivity.
  - intros H. pose proof H as H'.
    apply bind_inv in H'. destruct H' as [u [w1 [w2 [_ [Hret _]]]]].
    inversion Hret; subst. cbn [with_freq_original settings].
    rewrite with_settings_same. exact H.
Qed.

Lemma validate_rest_self self argument trimmed self1 validated arg w :
  validate_rest self argument trimmed = Done (self1, validated, arg) w ->
  self1 = self.
Proof.
  unfold validate_rest. intros H. apply bind_inv in H.
  destruct H as [s1 [? [? [_ [H _]]]]]. inversion H. reflexivity.
Qed.

(** Validation does not depend on whether the frequency it infers is
    already in the settings. *)
Lemma validate_series_again self series self1 validated argument w :
  validate_series self series = Done (self1, validated, argument) w ->
  validate_series (with_settings self (settings self1)) series =
    Done (self1, validated, argument) w.
Proof.
  rewrite !validate_series_parts. cbv zeta.
  destruct (pd.infer_freq _) as [freq w0|e]; [|discriminate].
  rewrite !bind_Done.
  destruct (bind (frequency_found self freq) _) as [r w'|] eqn:E;
    [|discriminate].
  intros H; inversion H; subst. clear H.
  destruct (frequency_found self freq) as [s w1|] eqn:Hs; [|discriminate].
  rewrite bind_Done in E.
  destruct (validate_rest s _ _) as [r2 w2|] eqn:Hr; [|discriminate].
  inversion E; subst. clear E.
  pose proof (validate_rest_self _ _ _ Hr) as ->.
  rewrite (frequency_found_again _ _ Hs), bind_Done, Hr. reflexivity.
Qed.

(** An object that was constructed and never updated is recreated from its
    export as it is: the same derived series, the same attributes, the
    same cautions. *)
Lemma reconstruct_fresh raw nm ty st kwargs self argument w :
  init raw nm ty st kwargs = Done (self, argument) w ->
  reconstruct (export self) = Done (self, argument) w.
Proof.
  unfold init. intros H.
  destruct (validate_series _ raw) as [[[self1 validated] arg] w1|] eqn:Hv;
    [|discriminate].
  rewrite bind_Done in H.
  destruct (bind (update_series _ _) _) as [[p a] w2|] eqn:Hu; [|discriminate].
  inversion H; subst. clear H.
  pose proof Hu as Hu'.
  apply bind_inv in Hu'. destruct Hu' as [p' [w3 [w4 [Hup [Hret _]]]]].
  inversion Hret; subst. clear Hret.
  pose proof (update_series_frame _ _ Hup) as
    [Ho [Hn [Ht [_ [_ Hs]]]]].
  pose proof (validate_series_frame _ _ Hv) as [Ho1 [_ [Hn1 [Ht1 _]]]].
  cbn [with_series series_original name type settings settings_of] in *.
  rewrite update_items in Hs.
  unfold reconstruct, export, init. cbn [export_series export_settings
    export_name export_type].
  rewrite Ho, Ho1, Hn, Hn1, Ht, Ht1, Hs. cbn [Settings.update fold_left].
  rewrite update_items.
  apply validate_series_again in Hv.
  unfold with_settings in Hv.
  cbn [self_rows series_original freq_original name type
       series] in Hv.
  rewrite Hv, bind_Done.
  unfold settings_of in *. cbn [with_series settings] in *.
  rewrite Hu. reflexivity.
Qed.

(** C8 (the code at the failing input).  Three daily rows with the
    defaults for wells, then an update that asks for a [tmin] two days
    before the first row.  The updated object holds the two new rows and
    the three observations; the object recreated from its export holds the
    two new rows only.  Both were derived from the same stored series with
    the same settings. *)
Theorem reconstruct_after_update_differs :
  let updated :=
    then_update (init (daily 3) "h" (Some "well"%string) [] [])
                [Settings.Ktmin (Some (jan1 - 2 * day + 12 * hour))] in
  derived updated =
    Some [(jan1 - 2 * day, 0%float); (jan1 - day, 0%float);
          (jan1, 1%float); (jan1 + day, 2%float);
          (jan1 + 2 * day, 3%float)] /\
  derived (then_reconstruct updated) =
    Some [(jan1 - 2 * day, 0%float); (jan1 - day, 0%float)] /\
  option_map (fun p => export (fst p))
             (match then_reconstruct updated with
              | Done p _ => Some p | Raised _ => None end) =
  option_map (fun p => export (fst p))
             (match updated with
              | Done p _ => Some p | Raised _ => None end).
Proof. cbv zeta. repeat split; vm_compute; reflexivity. Qed.

(* ================================================================== *)
(** ** The index of the derived series *)
(* ================================================================== *)

(** *** Order of labels under the list operations *)

Lemma increasing_filter_rows (P : Row -> bool) s :
  increasing (index s) -> increasing (index (filter P s)).
Proof.
  induction s as [|r s IH]; intros H; [exact I|].
  cbn [filter]. pose proof (increasing_tail _ _ H) as Ht.
  destruct (P r); [|apply IH, Ht].
  cbn [index map]. apply increasing_cons; [apply IH, Ht|].
  intros x Hx. apply (increasing_lt_head _ _ H).
  unfold index in *. apply in_map_iff in Hx. destruct Hx as [r' [<- Hr']].
  apply filter_In in Hr'. apply in_map, Hr'.
Qed.

Lemma label_le_trans : Relations_1.Transitive label_le.
Proof. intros a b c. unfold label_le. lia. Qed.

Lemma chronological_strong s : chronological s -> StronglySorted label_le s.
Proof. apply Sorted_StronglySorted, label_le_trans. Qed.

Lemma chronological_filter (P : Row -> bool) s :
  chronological s -> chronological (filter P s).
Proof.
  intros H. apply chronological_strong in H.
  apply StronglySorted_Sorted.
  induction H as [|a l Hl IH Ha]; simpl; [constructor|].
  destruct (P a); [|exact IH].
  constructor; [exact IH|].
  rewrite Forall_forall in *. intros x Hx. apply Ha.
  apply filter_In in Hx. tauto.
Qed.

Lemma chronological_increasing s :
  chronological s -> pd.is_unique (index s) = true -> increasing (index s).
Proof.
  intros H Hu. apply chronological_strong in H.
  apply is_unique_NoDup in Hu.
  induction H as [|a l Hl IH Ha]; [exact I|].
  cbn [index map] in *. inversion Hu; subst.
  apply increasing_cons; [apply IH; assumption|].
  intros x Hx. pose proof Hx as Hx'.
  apply in_map_iff in Hx'. destruct Hx' as [r [<- Hr]].
  rewrite Forall_forall in Ha. specialize (Ha r Hr). unfold label_le in Ha.
  assert (fst a <> fst r) by (intros E; rewrite E in *; contradiction).
  lia.
Qed.

Lemma increasing_chronological s : increasing (index s) -> chronological s.
Proof.
  unfold chronological.
  induction s as [|r s IH]; intros H; [constructor|].
  constructor; [apply IH; eapply increasing_tail; exact H|].
  destruct s as [|r' s]; constructor.
  cbn in H. unfold label_le. lia.
Qed.

Lemma insert_label_In t l x :
  In x (pd.insert_label t l) -> x = t \/ In x l.
Proof.
  induction l as [|y r IH]; simpl.
  - intros [<-|[]]. auto.
  - destruct (t <? y); [simpl; intuition|].
    destruct (t =? y); [simpl; intuition|].
    simpl. intros [<-|H]; [auto|]. destruct (IH H); auto.
Qed.

Lemma insert_label_increasing t l :
  increasing l -> increasing (pd.insert_label t l).
Proof.
  induction l as [|y r IH]; intros H; [exact I|].
  cbn [pd.insert_label].
  destruct (Z.ltb_spec t y) as [Hlt|Hge].
  - apply increasing_cons; [exact H|].
    intros x [<-|Hx]; [exact Hlt|].
    pose proof (increasing_lt_head _ _ H _ Hx). lia.
  - destruct (Z.eqb_spec t y) as [->|Hne]; [exact H|].
    apply increasing_cons; [apply IH; eapply increasing_tail; exact H|].
    intros x Hx. apply insert_label_In in Hx. destruct Hx as [->|Hx].
    + lia.
    + apply (increasing_lt_head _ _ H _ Hx).
Qed.

Lemma sort_unique_increasing l : increasing (pd.sort_unique l).
Proof.
  induction l as [|t l IH]; [exact I|]. apply insert_label_increasing, IH.
Qed.

Lemma union_increasing a b :
  increasing a -> increasing b -> increasing (pd.union a b).
Proof.
  intros Ha Hb. unfold pd.union. destruct b as [|t r]; [exact Ha|].
  destruct (pd.labels_eqb a (t :: r)); [exact Ha|].
  destruct a; [exact Hb | apply sort_unique_increasing].
Qed.

Lemma date_range_increasing a b dt :
  0 < dt -> increasing (pd.date_range a b dt).
Proof. intros H. eapply spaced_increasing; eauto using date_range_spaced. Qed.

(** *** Constant spacing under a slice *)

Lemma loc_nil_above s a hi :
  (forall r, In r s -> hi < fst r) -> pd.loc s a (Some hi) = [].
Proof.
  intros H. unfold pd.loc. induction s as [|r s IH]; [reflexivity|].
  cbn [filter]. unfold pd.in_slice at 1.
  destruct (Z.leb_spec (fst r) hi) as [Hle|_].
  - specialize (H r (or_introl eq_refl)). lia.
  - rewrite andb_false_r. apply IH. intros r' Hr'. apply H. right. exact Hr'.
Qed.

Lemma loc_spaced dt s a b :
  0 < dt -> spaced dt (index s) -> spaced dt (index (pd.loc s a b)).
Proof.
  intros Hdt. induction s as [|r s IH]; intros H; [exact I|].
  assert (Hs : spaced dt (index s)).
  { destruct s as [|r' s]; [exact I|]. cbn in H. tauto. }
  specialize (IH Hs).
  unfold pd.loc in *. cbn [filter].
  destruct (pd.in_slice a b (fst r)) eqn:Hin; [|exact IH].
  destruct s as [|r' s]; [exact I|].
  assert (Hnext : fst r' = fst r + dt) by (cbn in H; tauto).
  cbn [filter] in *.
  destruct (pd.in_slice a b (fst r')) eqn:Hin'.
  - cbn [index map] in *. split; [exact Hnext | exact IH].
  - (* the next label is past the upper bound, and so are all later ones *)
    unfold pd.in_slice in Hin, Hin'.
    apply andb_true_iff in Hin. destruct Hin as [Hlo Hhi].
    destruct b as [hi|].
    + assert (Hpast : hi < fst r').
      { apply andb_false_iff in Hin'. destruct Hin' as [Hl|Hh].
        - destruct a as [lo|]; [|discriminate].
          apply Z.leb_le in Hlo. apply Z.leb_gt in Hl. lia.
        - apply Z.leb_gt in Hh. exact Hh. }
      fold (pd.loc s a (Some hi)). rewrite loc_nil_above; [exact I|].
      intros x Hx.
      assert (fst r' < fst x); [|lia].
      apply (increasing_lt_head (fst r') (index s)).
      * apply (@spaced_increasing dt _ Hdt Hs).
      * apply in_map, Hx.
    + rewrite andb_true_r in Hin'.
      destruct a as [lo|]; [|discriminate].
      apply Z.leb_le in Hlo. apply Z.leb_gt in Hin'. lia.
Qed.

Lemma loc_increasing s a b :
  increasing (index s) -> increasing (index (pd.loc s a b)).
Proof. apply increasing_filter_rows. Qed.

(** *** The index each operation of pandas gives *)

Lemma asfreq_spaced s f m s' w :
  pd.asfreq s (Some f) m = Done s' w ->
  spaced (freq_seconds f) (index s').
Proof.
  unfold pd.asfreq.
  destruct (pd.index_min s) as [lo|] eqn:Hmin.
  - destruct (pd.index_max s) as [hi|] eqn:Hmax.
    + intros H. apply index_reindex in H. destruct H as [-> _].
      apply date_range_spaced.
    + apply index_max_None in Hmax. subst s.
      intros H; inversion H. exact I.
  - apply index_min_None in Hmin. subst s.
    intros H; inversion H. exact I.
Qed.

Lemma asfreq_increasing s freq m s' w :
  pd.asfreq s freq m = Done s' w -> increasing (index s').
Proof.
  destruct freq as [f|].
  - intros H. apply asfreq_spaced in H.
    eapply spaced_increasing; eauto using freq_seconds_pos.
  - unfold pd.asfreq.
    destruct (pd.index_min s) as [lo|] eqn:Hmin.
    + destruct (pd.index_max s) as [hi|] eqn:Hmax; [discriminate|].
      apply index_max_None in Hmax. subst s.
      intros H; inversion H. exact I.
    + apply index_min_None in Hmin. subst s.
      intros H; inversion H. exact I.
Qed.

Lemma resample_right_spaced s f a s' w :
  pd.resample_right (Some f) a s = Done s' w ->
  spaced (freq_seconds f) (index s').
Proof.
  unfold pd.resample_right.
  destruct (pd.index_min s) as [lo|] eqn:Hmin.
  - destruct (pd.index_max s) as [hi|] eqn:Hmax.
    + destruct (pd.range_edges f lo hi) as [e1 e2].
      intros H; inversion H; subst. unfold index. rewrite map_map.
      cbn [fst]. rewrite map_id. apply spaced_tl, date_range_spaced.
    + apply index_max_None in Hmax. subst s.
      intros H; inversion H. exact I.
  - apply index_min_None in Hmin. subst s.
    intros H; inversion H. exact I.
Qed.

Lemma resample_right_Some freq a s s' w :
  pd.resample_right freq a s = Done s' w -> exists f, freq = Some f.
Proof.
  unfold pd.resample_right. destruct freq; [eauto | discriminate].
Qed.

(** *** The index each step of the pipeline gives *)

(** The fills that follow [asfreq] in [sample_up] and [fill_nan], without
    the policy "drop": they keep the index. *)
Lemma fill_tail_index (method : Policy) (a s' : Series) w :
  (if is_str method "mean" then ret (pd.fillna (pd.mean a) a)
   else if is_str method "interpolate" then ret (pd.interpolate_time a)
   else match is_float method with
        | Some v => ret (pd.fillna v a)
        | None => not_supported "sample_up" method ;;; ret a
        end) = Done s' w ->
  index s' = index a.
Proof.
  destruct (is_str method "mean");
    [intros H; inversion H; apply index_fillna|].
  destruct (is_str method "interpolate");
    [intros H; inversion H; apply index_interpolate_time|].
  destruct (is_float method); intros H; inversion H;
    [apply index_fillna | reflexivity].
Qed.

Lemma fill_nan_index self s s' w :
  fill_nan self s = Done s' w ->
  (chronological s -> chronological s') /\
  (increasing (index s) -> increasing (index s')) /\
  (forall f, freq_original self = Some f ->
     is_str (Settings.fill_nan (settings self)) "drop" = false ->
     spaced (freq_seconds f) (index s')).
Proof.
  unfold fill_nan. destruct (freq_original self) as [f0|].
  - intros H. apply bind_inv in H.
    destruct H as [a [w1 [w2 [Ha [Hk _]]]]].
    pose proof (asfreq_increasing _ _ _ Ha) as Hinc.
    pose proof (asfreq_spaced _ _ _ Ha) as Hsp.
    destruct (is_str (Settings.fill_nan (settings self)) "drop").
    + inversion Hk; subst.
      assert (increasing (index (pd.dropna a)))
        by (apply increasing_filter_rows, Hinc).
      split; [intros _; apply increasing_chronological; assumption|].
      split; [intros _; assumption|]. discriminate.
    + apply fill_tail_index in Hk. rewrite Hk.
      split; [intros _; apply increasing_chronological; rewrite Hk;
              exact Hinc|].
      split; [intros _; exact Hinc|].
      intros f E _. inversion E; subst. exact Hsp.
  - intros H; inversion H; subst.
    split; [apply chronological_filter|].
    split; [apply increasing_filter_rows|]. discriminate.
Qed.

Lemma sample_up_index self s s' w :
  sample_up self s = Done s' w ->
  increasing (index s') /\
  forall f, Settings.freq (settings self) = Some f ->
            spaced (freq_seconds f) (index s').
Proof.
  unfold sample_up.
  destruct (in_strs _ ["backfill"; "bfill"]%string).
  { intros H. split; [eapply asfreq_increasing; eauto|].
    intros f Hf. rewrite Hf in H. eapply asfreq_spaced; eauto. }
  destruct (in_strs _ ["pad"; "ffill"]%string).
  { intros H. split; [eapply asfreq_increasing; eauto|].
    intros f Hf. rewrite Hf in H. eapply asfreq_spaced; eauto. }
  intros H. apply bind_inv in H.
  destruct H as [a [w1 [w2 [Ha [Hk _]]]]].
  apply fill_tail_index in Hk. rewrite Hk.
  split; [eapply asfreq_increasing; eauto|].
  intros f Hf. rewrite Hf in Ha. eapply asfreq_spaced; eauto.
Qed.

Lemma resample_right_increasing freq a s s' w :
  pd.resample_right freq a s = Done s' w -> increasing (index s').
Proof.
  intros H. destruct (resample_right_Some _ _ _ H) as [f ->].
  apply resample_right_spaced in H.
  eapply spaced_increasing; eauto using freq_seconds_pos.
Qed.

Lemma sample_down_index self s s' w :
  sample_down self s = Done s' w ->
  (increasing (index s) -> increasing (index s')) /\
  (forall f,
     Settings.freq (settings self) = Some f ->
     down_agg (Settings.sample_down (settings self)) <> None ->
     is_str (Settings.sample_down (settings self)) "drop" = false ->
     spaced (freq_seconds f) (index s')).
Proof.
  intros H. split.
  - intros Hs. revert H. unfold sample_down.
    destruct (is_str _ "mean"); [apply resample_right_increasing|].
    destruct (is_str _ "drop").
    { intros H. apply bind_inv in H.
      destruct H as [a [w1 [w2 [Ha [Hk _]]]]]. inversion Hk; subst.
      apply increasing_filter_rows.
      eapply resample_right_increasing; eauto. }
    destruct (is_str _ "sum"); [apply resample_right_increasing|].
    destruct (is_str _ "min"); [apply resample_right_increasing|].
    destruct (is_str _ "max"); [apply resample_right_increasing|].
    intros H; inversion H; subst. exact Hs.
  - intros f Hf Hagg Hdrop.
    destruct (down_agg (Settings.sample_down (settings self))) as [a|] eqn:E;
      [|congruence].
    rewrite (sample_down_recognised self s E), Hdrop, Hf in H.
    eapply resample_right_spaced; eauto.
Qed.

Lemma change_frequency_index self s s' w :
  change_frequency self s = Done s' w ->
  (increasing (index s) -> increasing (index s')) /\
  (forall f f0,
     Settings.freq (settings self) = Some f ->
     freq_original self = Some f0 ->
     regrids (settings self) f f0 = true ->
     spaced (freq_seconds f) (index s')).
Proof.
  unfold change_frequency. intros H. apply bind_inv in H.
  destruct H as [s1 [w1 [w2 [Hs1 [Hret _]]]]].
  inversion Hret; subst. clear Hret.
  assert (Hmain :
    (increasing (index s) -> increasing (index s1)) /\
    (forall f f0,
       Settings.freq (settings self) = Some f ->
       freq_original self = Some f0 ->
       regrids (settings self) f f0 = true ->
       spaced (freq_seconds f) (index s1))).
  { destruct (Settings.freq (settings self)) as [f|] eqn:Hf.
    2:{ inversion Hs1; subst. split; [auto|]. discriminate. }
    unfold utils.get_dt in Hs1. rewrite bind_ret_l in Hs1.
    destruct (freq_original self) as [f0|] eqn:Hf0; [|discriminate].
    rewrite bind_ret_l in Hs1.
    destruct (Z.ltb_spec (freq_seconds f) (freq_seconds f0)) as [Hlt|Hge].
    { apply sample_up_index in Hs1. destruct Hs1 as [Hi Hsp].
      split; [intros _; exact Hi|].
      intros f' f0' E _ _. inversion E; subst. apply Hsp. exact Hf. }
    destruct (Z.ltb_spec (freq_seconds f0) (freq_seconds f)) as [Hlt|Hge'].
    { apply sample_down_index in Hs1. destruct Hs1 as [Hi Hsp].
      split; [exact Hi|].
      intros f' f0' E E0 Hr. inversion E; inversion E0; subst.
      unfold regrids in Hr.
      destruct (Z.ltb_spec (freq_seconds f') (freq_seconds f0'));
        [lia|].
      destruct (Z.ltb_spec (freq_seconds f0') (freq_seconds f'));
        [|lia].
      destruct (down_agg (Settings.sample_down (settings self))) eqn:Ha;
        [|discriminate].
      apply Hsp; [exact Hf | congruence |].
      apply negb_true_iff, Hr. }
    destruct (Z.eqb_spec (freq_seconds f) (freq_seconds f0)) as [Heq|Hne];
      [|lia].
    apply fill_nan_index in Hs1. destruct Hs1 as [_ [Hi Hsp]].
    split; [exact Hi|].
    intros f' f0' E E0 Hr. inversion E; inversion E0; subst.
    unfold regrids in Hr.
    destruct (Z.ltb_spec (freq_seconds f') (freq_seconds f0')); [lia|].
    destruct (Z.ltb_spec (freq_seconds f0') (freq_seconds f')); [lia|].
    rewrite Heq. apply Hsp; [exact Hf0|]. apply negb_true_iff, Hr. }
  destruct Hmain as [Hi Hsp]. split.
  - intros Hs. apply loc_increasing, Hi, Hs.
  - intros f f0 Hf Hf0 Hr. apply loc_spaced; [apply freq_seconds_pos|].
    eapply Hsp; eauto.
Qed.

Lemma reindex_before_index self s tmin s' w :
  reindex_before self s tmin = Done s' w ->
  increasing (index (self_rows self)) -> increasing (index s').
Proof.
  unfold reindex_before, utils.get_time_offset.
  destruct (Settings.freq (settings self)) as [f|]; [|discriminate].
  rewrite bind_ret_l.
  destruct (pd.index_min s); [|discriminate].
  intros H Hrows. apply index_reindex in H. destruct H as [-> _].
  apply union_increasing; [exact Hrows|].
  eapply spaced_increasing;
    eauto using freq_seconds_pos, removelast_date_range_spaced.
Qed.

Lemma reindex_after_index self s tmax s' w :
  reindex_after self s tmax = Done s' w ->
  increasing (index (self_rows self)) -> increasing (index s').
Proof.
  unfold reindex_after, utils.get_time_offset.
  destruct (Settings.freq (settings self)) as [f|]; [|discriminate].
  rewrite bind_ret_l.
  destruct (pd.index_max s); [|discriminate].
  intros H Hrows. apply index_reindex in H. destruct H as [-> _].
  apply union_increasing; [exact Hrows|].
  eapply spaced_increasing;
    eauto using freq_seconds_pos, removelast_date_range_spaced.
Qed.

Lemma fill_before_index self s s' w :
  fill_before self s = Done s' w ->
  (Settings.tmin (settings self) = None -> s' = s) /\
  (increasing (index (self_rows self)) -> increasing (index s) ->
   increasing (index s')).
Proof.
  unfold fill_before. destruct (Settings.tmin (settings self)) as [tmin|].
  - destruct (at_or_after_min tmin s).
    + intros H; inversion H; subst. split; [discriminate | auto].
    + intros H. apply bind_inv in H.
      destruct H as [a [w1 [w2 [Ha [Hk _]]]]].
      apply index_fill_extension in Hk. rewrite Hk.
      split; [discriminate|]. intros Hrows _.
      eapply reindex_before_index; eauto.
  - intros H; inversion H; subst. auto.
Qed.

Lemma fill_after_index self s s' w :
  fill_after self s = Done s' w ->
  (Settings.tmax (settings self) = None -> s' = s) /\
  (increasing (index (self_rows self)) -> increasing (index s) ->
   increasing (index s')).
Proof.
  unfold fill_after. destruct (Settings.tmax (settings self)) as [tmax|].
  - destruct (at_or_before_max tmax s).
    + intros H; inversion H; subst. split; [discriminate | auto].
    + intros H. apply bind_inv in H.
      destruct H as [a [w1 [w2 [Ha [Hk _]]]]].
      apply index_fill_extension in Hk. rewrite Hk.
      split; [discriminate|]. intros Hrows _.
      eapply reindex_after_index; eauto.
  - intros H; inversion H; subst. auto.
Qed.

Lemma normalize_index self s s' w :
  normalize self s = Done s' w -> index s' = index s.
Proof.
  unfold normalize.
  destruct (Settings.norm (settings self)); simpl;
    try (intros H; inversion H; reflexivity).
  destruct (String.eqb _ _); intros H; inversion H;
    [apply index_subtract | reflexivity].
Qed.

Lemma index_groupby_mean s :
  index (pd.groupby_mean s) = pd.sort_unique (index s).
Proof.
  unfold pd.groupby_mean, index at 1. rewrite map_map. apply map_id.
Qed.

(** The validated series has strictly increasing labels. *)
Lemma validate_series_increasing self raw self1 validated argument w :
  validate_series self raw = Done (self1, validated, argument) w ->
  increasing (index validated).
Proof.
  rewrite validate_series_parts. cbv zeta. intros H.
  apply bind_inv in H. destruct H as [freq [? [? [_ [H _]]]]].
  apply bind_inv in H. destruct H as [self2 [? [? [_ [H _]]]]].
  unfold validate_rest in H.
  apply bind_inv in H. destruct H as [s1 [? [? [Hs1 [H _]]]]].
  inversion H; subst. clear H.
  set (trimmed := pd.loc _ _ _) in Hs1.
  assert (Htrim : chronological trimmed)
    by (apply chronological_filter, sort_index_sorted).
  assert (Hc : chronological s1).
  { destruct (pd.hasnans trimmed).
    - apply fill_nan_index in Hs1. apply Hs1, Htrim.
    - inversion Hs1; subst. exact Htrim. }
  destruct (pd.is_unique (index s1)) eqn:Hu.
  - apply chronological_increasing; assumption.
  - rewrite index_groupby_mean. apply sort_unique_increasing.
Qed.

(** One run of the pipeline. *)
Lemma update_series_index self kwargs self' w :
  update_series self kwargs = Done self' w ->
  increasing (index (series self)) ->
  increasing (index (self_rows self)) ->
  increasing (index (self_rows self')) /\
  (kwargs <> [] ->
   forall f f0,
     Settings.freq (settings self') = Some f ->
     freq_original self' = Some f0 ->
     Settings.tmin (settings self') = None ->
     Settings.tmax (settings self') = None ->
     regrids (settings self') f f0 = true ->
     spaced (freq_seconds f) (index (self_rows self'))).
Proof.
  unfold update_series. destruct kwargs as [|k kwargs].
  - intros H; inversion H; subst. intros _ Hrows.
    split; [exact Hrows|]. congruence.
  - set (self1 := with_settings self _). unfold series_of.
    intros H Hser Hrows.
    apply bind_inv in H. destruct H as [s1 [? [? [H1 [H _]]]]].
    apply bind_inv in H. destruct H as [s2 [? [? [H2 [H _]]]]].
    apply bind_inv in H. destruct H as [s3 [? [? [H3 [H _]]]]].
    apply bind_inv in H. destruct H as [s4 [? [? [H4 [H _]]]]].
    inversion H; subst. clear H. cbn [_update_inplace self_rows settings
      freq_original].
    apply change_frequency_index in H1. destruct H1 as [Hi1 Hsp1].
    apply fill_before_index in H2. destruct H2 as [Hn2 Hi2].
    apply fill_after_index in H3. destruct H3 as [Hn3 Hi3].
    apply normalize_index in H4. rewrite H4.
    assert (Hrows1 : increasing (index (self_rows self1))) by exact Hrows.
    split.
    + apply Hi3; [exact Hrows1|]. apply Hi2; [exact Hrows1|].
      apply Hi1, Hser.
    + intros _ f f0 Hf Hf0 Htmin Htmax Hr.
      rewrite (Hn3 Htmax), (Hn2 Htmin). eapply Hsp1; eauto.
Qed.

Lemma reachable_invariant self :
  reachable self ->
  increasing (index (series self)) /\
  increasing (index (self_rows self)) /\
  on_grid self.
Proof.
  induction 1 as [raw nm ty st kwargs self argument w Hinit
                 |self kwargs self' w Hreach IH Hup].
  - unfold init in Hinit. apply bind_inv in Hinit.
    destruct Hinit as [[[self1 validated] arg] [w1 [w2 [Hv [H _]]]]].
    apply bind_inv in H. destruct H as [self2 [w3 [w4 [Hu [H _]]]]].
    inversion H; subst. clear H.
    pose proof (validate_series_increasing _ _ Hv) as Hval.
    pose proof (validate_series_frame _ _ Hv) as [_ [Hrows _]].
    cbn [self_rows] in Hrows.
    pose proof (update_series_frame _ _ Hu) as [_ [_ [_ [Hser _]]]].
    cbn [with_series series] in Hser.
    apply update_series_index in Hu.
    + destruct Hu as [Hi Hsp]. split; [rewrite Hser; exact Hval|].
      split; [exact Hi|]. unfold on_grid. apply Hsp.
      unfold settings_of, Settings.items. discriminate.
    + exact Hval.
    + cbn [with_series self_rows]. rewrite Hrows. exact I.
  - destruct IH as [Hser [Hrows Hgrid]].
    pose proof (update_series_frame _ _ Hup) as [_ [_ [_ [Hser' _]]]].
    pose proof (update_series_index _ _ Hup Hser Hrows) as [Hi Hsp].
    split; [rewrite Hser'; exact Hser|]. split; [exact Hi|].
    destruct kwargs as [|k kwargs].
    + inversion Hup; subst. exact Hgrid.
    + unfold on_grid. apply Hsp. discriminate.
Qed.

(** C3, as the code has it.  The derived series of every object, after
    construction and after every update, has strictly increasing labels,
    so no label occurs twice.  Its labels are exactly one interval of the
    configured frequency apart when no window is asked for and the series
    is upsampled (with any policy), downsampled with "mean", "sum", "min"
    or "max", or kept at its frequency with a policy for gaps other than
    "drop". *)
Theorem derived_index_invariant (self : TimeSeries) :
  reachable self ->
  NoDup (index (self_rows self)) /\
  increasing (index (self_rows self)) /\
  forall f f0,
    Settings.freq (settings self) = Some f ->
    freq_original self = Some f0 ->
    Settings.tmin (settings self) = None ->
    Settings.tmax (settings self) = None ->
    regrids (settings self) f f0 = true ->
    spaced (freq_seconds f) (index (self_rows self)).
Proof.
  intros H. apply reachable_invariant in H. destruct H as [_ [Hi Hg]].
  split; [apply increasing_NoDup, Hi|]. split; [exact Hi | exact Hg].
Qed.

(** The object constructed from [half_daily] with the precipitation
    defaults: twelve-hourly rows summed to daily ones. *)
Lemma derived_index_invariant_witness :
  exists self w,
    init half_daily "h" (Some "prec"%string) [] [] =
      Done (self, half_daily) w /\
    spaced day (index (self_rows self)).
Proof.
  assert (H : exists self w,
            init half_daily "h" (Some "prec"%string) [] [] =
              Done (self, half_daily) w /\
            Settings.freq (settings self) = freq_D /\
            freq_original self = Some (mkFreq 12 Hours) /\
            Settings.tmin (settings self) = None /\
            Settings.tmax (settings self) = None /\
            regrids (settings self) (mkFreq 1 Days) (mkFreq 12 Hours) = true).
  { vm_compute. do 2 eexists. repeat split. }
  destruct H as [self [w [Hinit [Hf [Hf0 [Htmin [Htmax Hr]]]]]]].
  exists self, w. split; [exact Hinit|].
  exact (proj2 (proj2 (@derived_index_invariant self
                         (reach_init _ _ _ _ _ Hinit)))
               (mkFreq 1 Days) (mkFreq 12 Hours) Hf Hf0 Htmin Htmax Hr).
Defined.

(** C3 as the claim states it fails.  With the defaults for observations
    (frequency "D", gaps dropped) the rows of [irregular], on days 0, 1
    and 3, are derived as they are: the labels are not one day apart. *)
Lemma derived_index_not_spaced :
  exists self argument w,
    init irregular "h" (Some "oseries"%string) [] [] =
      Done (self, argument) w /\
    Settings.freq (settings self) = freq_D /\
    index (self_rows self) = [jan1; jan1 + day; jan1 + 3 * day] /\
    ~ spaced day (index (self_rows self)).
Proof.
  vm_compute. do 3 eexists. split; [reflexivity|].
  split; [reflexivity|]. split; [reflexivity|].
  intros [_ [H _]]. discriminate.
Qed.

(* ================================================================== *)
(** ** Further properties *)
(* ================================================================== *)




(** X2.  The validated series has strictly increasing labels: it is in
    chronological order and no label occurs twice. *)
Theorem validated_series_is_sorted
    (self : TimeSeries) (raw : Series)
    (self1 : TimeSeries) (validated argument : Series) (w : list Caution) :
  validate_series self raw = Done (self1, validated, argument) w ->
  increasing (index validated) /\ NoDup (index validated) /\
  chronological validated.
Proof.
  intros H. pose proof (validate_series_increasing _ _ H) as Hi.
  split; [exact Hi|].
  split; [apply increasing_NoDup, Hi | apply increasing_chronological, Hi].
Qed.

Lemma validated_series_is_sorted_witness :
  increasing (index (daily 3)).
Proof.
  exact (proj1 (@validated_series_is_sorted
                  (blank None default_settings) unsorted
                  (blank freq_D default_settings) (daily 3) (daily 3) []
                  eq_refl)).
Defined.

(** X3.  An object that was constructed and not updated since is
    recreated from its export as it is: the recreated object has the same
    derived series and the same attributes, and the same cautions are
    raised. *)
Theorem export_of_constructed_recreates
    (raw : Series) (nm : string) (ty : option string)
    (st kwargs : list Settings.item)
    (self : TimeSeries) (argument : Series) (w : list Caution) :
  init raw nm ty st kwargs = Done (self, argument) w ->
  reconstruct (export self) = Done (self, argument) w /\
  derived (reconstruct (export self)) = Some (self_rows self).
Proof.
  intros H. pose proof (reconstruct_fresh _ _ _ _ _ H) as E.
  split; [exact E|]. rewrite E. reflexivity.
Qed.

Lemma export_of_constructed_recreates_witness :
  exists self w,
    init gap3 "h" (Some "evap"%string) [] [] = Done (self, gap3) w /\
    derived (reconstruct (export self)) = Some (self_rows self).
Proof.
  assert (H : exists self w,
            init gap3 "h" (Some "evap"%string) [] [] = Done (self, gap3) w).
  { vm_compute. do 2 eexists. reflexivity. }
  destruct H as [self [w H]]. exists self, w. split; [exact H|].
  exact (proj2 (@export_of_constructed_recreates gap3 "h"
                  (Some "evap"%string) [] [] self gap3 w H)).
Defined.

(* ================================================================== *)
(** ** The settings of a constructed object *)
(* ================================================================== *)

Lemma holds_set st i : holds (Settings.set st i) i.
Proof. unfold holds. destruct i, st; reflexivity. Qed.

Lemma holds_set_other st i j :
  same_key i j = false -> holds st i -> holds (Settings.set st j) i.
Proof.
  unfold holds. destruct i, j; try discriminate; intros _;
    destruct st; simpl; intros H; inversion H; subst; rewrite ?H1;
    reflexivity.
Qed.

Lemma holds_update st d i :
  forallb (fun j => negb (same_key i j)) d = true ->
  holds st i -> holds (Settings.update st d) i.
Proof.
  revert st. induction d as [|j d IH]; intros st Hd Hi; [exact Hi|].
  cbn [forallb] in Hd. apply andb_true_iff in Hd. destruct Hd as [Hj Hd].
  unfold Settings.update. cbn [fold_left]. apply IH; [exact Hd|].
  apply holds_set_other; [apply negb_true_iff, Hj | exact Hi].
Qed.

Lemma update_app st a b :
  Settings.update st (a ++ b) = Settings.update (Settings.update st a) b.
Proof. apply fold_left_app. Qed.

Lemma assigned_last_holds st d i :
  assigned_last d i -> holds (Settings.update st d) i.
Proof.
  intros [d1 [d2 [-> Hd2]]]. rewrite update_app.
  unfold Settings.update at 1. cbn [fold_left].
  apply holds_update; [exact Hd2 | apply holds_set].
Qed.

(** The settings of a constructed object are the given ones, but for the
    frequency when none was given: then it is the one validation found. *)
Lemma init_settings raw nm ty st kwargs self argument w :
  init raw nm ty st kwargs = Done (self, argument) w ->
  let st0 := given_settings ty st kwargs in
  settings self =
    Settings.set st0
      (Settings.Kfreq (match Settings.freq st0 with
                       | Some f => Some f
                       | None => freq_original self
                       end)).
Proof.
  unfold init. fold (given_settings ty st kwargs).
  set (st0 := given_settings ty st kwargs). intros H. cbv zeta.
  apply bind_inv in H.
  destruct H as [[[self1 validated] arg] [w1 [w2 [Hv [H _]]]]].
  apply bind_inv in H. destruct H as [self2 [w3 [w4 [Hu [H _]]]]].
  inversion H; subst. clear H.
  apply update_series_frame in Hu.
  destruct Hu as [_ [_ [_ [_ [Hfo Hs]]]]].
  unfold settings_of in Hs. cbn [with_series settings freq_original] in *.
  rewrite update_items in Hs. rewrite Hs, Hfo. clear Hs Hfo.
  rewrite validate_series_parts in Hv. cbv zeta in Hv.
  apply bind_inv in Hv. destruct Hv as [freq [? [? [_ [Hv _]]]]].
  apply bind_inv in Hv. destruct Hv as [s [? [? [Hf [Hv _]]]]].
  apply validate_rest_self in Hv. subst s.
  unfold frequency_found in Hf.
  cbn [with_freq_original settings name] in Hf.
  destruct freq as [f|].
  - destruct (Settings.freq st0) eqn:E; inversion Hf; subst;
      cbn [settings freq_original with_settings]; destruct st0;
      cbn in *; subst; reflexivity.
  - apply bind_inv in Hf. destruct Hf as [u [? [? [_ [Hf _]]]]].
    inversion Hf; subst. cbn [settings freq_original].
    destruct st0 as [fr ? ? ? ? ? ? ? ?]; cbn. destruct fr; reflexivity.
Qed.

(** X4.  The settings of a constructed object hold, under every key, the
    value of the last assignment to that key in the defaults of the type,
    then the [settings] argument, then the keyword arguments: a keyword
    argument overrides [settings], which overrides the defaults of the
    type.  The one exception is a frequency given as [None], which
    validation may replace by the frequency it infers. *)
Theorem keyword_arguments_override
    (raw : Series) (nm : string) (ty : option string)
    (st kwargs : list Settings.item)
    (self : TimeSeries) (argument : Series) (w : list Caution)
    (i : Settings.item) :
  init raw nm ty st kwargs = Done (self, argument) w ->
  assigned_last (type_settings ty ++ st ++ kwargs) i ->
  i <> Settings.Kfreq None ->
  holds (settings self) i.
Proof.
  intros Hinit Hlast Hne.
  rewrite (init_settings _ _ _ _ _ Hinit). cbv zeta.
  assert (H0 : holds (given_settings ty st kwargs) i).
  { unfold given_settings. rewrite <- !update_app.
    apply assigned_last_holds, Hlast. }
  set (st0 := given_settings ty st kwargs) in *.
  destruct i as [v| | | | | | | |];
    try (apply holds_set_other; [reflexivity | exact H0]).
  destruct v as [f|]; [|congruence].
  assert (E : Settings.freq st0 = Some f).
  { unfold holds in H0. destruct st0; cbn in *. inversion H0. congruence. }
  rewrite E. unfold holds in *. rewrite H0. exact H0.
Qed.

Lemma keyword_arguments_override_witness :
  exists self w,
    init (daily 3) "h" (Some "prec"%string)
         [Settings.Kfill_nan (PStr "mean")]
         [Settings.Kfill_nan (PStr "interpolate")] =
      Done (self, daily 3) w /\
    Settings.fill_nan (settings self) = PStr "interpolate".
Proof.
  assert (H : exists self w,
            init (daily 3) "h" (Some "prec"%string)
                 [Settings.Kfill_nan (PStr "mean")]
                 [Settings.Kfill_nan (PStr "interpolate")] =
              Done (self, daily 3) w).
  { vm_compute. do 2 eexists. reflexivity. }
  destruct H as [self [w H]]. exists self, w. split; [exact H|].
  assert (Hh : holds (settings self)
                     (Settings.Kfill_nan (PStr "interpolate"))).
  { refine (@keyword_arguments_override _ _ _ _ _ self _ w _ H _ _).
    - exists (type_settings (Some "prec"%string)
              ++ [Settings.Kfill_nan (PStr "mean")]), [].
      split; reflexivity.
    - discriminate. }
  unfold holds in Hh. destruct (settings self); cbn in *.
  inversion Hh. congruence.
Defined.

(* ================================================================== *)
(** ** Series that cannot be constructed *)
(* ================================================================== *)

Lemma infer_freq_short idx :
  (List.length idx < 3)%nat -> pd.infer_freq idx = Raised ValueError.
Proof.
  destruct idx as [|a [|b [|c r]]]; simpl; intros H; try reflexivity; lia.
Qed.

Lemma constant_step_increasing d l :
  0 < d -> pd.constant_step d l = true -> increasing l.
Proof.
  intros Hd. induction l as [|t [|t' r] IH]; simpl; auto.
  intros H. apply andb_true_iff in H. destruct H as [E H].
  apply Z.eqb_eq in E. split; [lia | apply IH, H].
Qed.

Lemma infer_freq_repeated idx :
  pd.is_unique idx = false ->
  pd.infer_freq idx = Raised ValueError \/ pd.infer_freq idx = Done None [].
Proof.
  intros Hu. unfold pd.infer_freq.
  destruct idx as [|a [|b [|c r]]]; auto.
  destruct (0 <? b - a) eqn:Hd; [|right; reflexivity].
  destruct (pd.constant_step (b - a) (a :: b :: c :: r)) eqn:Hc;
    [|right; reflexivity].
  apply Z.ltb_lt in Hd.
  apply (constant_step_increasing _ Hd) in Hc.
  apply increasing_is_unique in Hc. congruence.
Qed.

Lemma validate_series_raised self raw :
  pd.infer_freq (index (trimmed raw)) = Raised ValueError ->
  validate_series self raw = Raised ValueError.
Proof.
  intros H. rewrite validate_series_parts. cbv zeta.
  fold (trimmed raw). rewrite H. reflexivity.
Qed.

Lemma init_raised raw nm ty st kwargs e :
  validate_series
    (mkTimeSeries [] raw None nm ty (given_settings ty st kwargs) []) raw =
    Raised e ->
  init raw nm ty st kwargs = Raised e.
Proof.
  intros H. unfold init. fold (given_settings ty st kwargs).
  rewrite H. reflexivity.
Qed.

(** X5.  A series with fewer than three rows between its first and its
    last valid row cannot be constructed, whatever the settings: the
    frequency cannot be inferred from fewer than three timestamps, and the
    constructor ends with that exception. *)
Theorem construction_needs_three_rows
    (raw : Series) (nm : string) (ty : option string)
    (st kwargs : list Settings.item) :
  (List.length (trimmed raw) < 3)%nat ->
  init raw nm ty st kwargs = Raised ValueError.
Proof.
  intros H. apply init_raised, validate_series_raised, infer_freq_short.
  unfold index. rewrite length_map. exact H.
Qed.

Lemma construction_needs_three_rows_witness :
  init [(jan1, PrimFloat.nan); (jan1 + day, 1%float);
        (jan1 + 2 * day, 2%float); (jan1 + 3 * day, PrimFloat.nan)]
       "h" (Some "prec"%string) [] [] = Raised ValueError.
Proof.
  apply construction_needs_three_rows. vm_compute. lia.
Defined.

Lemma hasnans_nonempty s : pd.hasnans s = true -> s <> [].
Proof. intros H E. subst s. discriminate. Qed.

Lemma asfreq_repeated s f :
  pd.hasnans s = true -> pd.is_unique (index s) = false ->
  pd.asfreq s (Some f) pd.NoFill = Raised ValueError.
Proof.
  intros Hn Hu. unfold pd.asfreq.
  destruct (pd.index_min s) as [lo|] eqn:Hmin.
  2:{ apply index_min_None in Hmin. subst. discriminate. }
  destruct (pd.index_max s) as [hi|] eqn:Hmax.
  2:{ apply index_max_None in Hmax. subst. discriminate. }
  unfold pd.reindex.
  destruct (pd.labels_eqb _ (index s)) eqn:E.
  - apply labels_eqb_eq in E.
    pose proof (@date_range_increasing lo hi (freq_seconds f)
                  (freq_seconds_pos f)) as Hi.
    rewrite E in Hi. apply increasing_is_unique in Hi. congruence.
  - rewrite Hu. reflexivity.
Qed.

Lemma frequency_found_None self :
  exists w,
    frequency_found self None =
    Done (with_freq_original self (Settings.freq (settings self))) w.
Proof.
  unfold frequency_found. cbn [with_freq_original settings name].
  destruct (truthy _ && negb _); eexists; reflexivity.
Qed.

(** X6.  A series that has, between its first and last valid row, both a
    gap and a repeated timestamp cannot be constructed when a frequency is
    configured: the gaps are filled before the repeated timestamps are
    merged, and the series cannot be put on a grid while a timestamp
    occurs twice. *)
Theorem gap_with_repeated_timestamp_raises
    (raw : Series) (nm : string) (ty : option string)
    (st kwargs : list Settings.item) (f : Freq) :
  pd.hasnans (trimmed raw) = true ->
  pd.is_unique (index (trimmed raw)) = false ->
  Settings.freq (given_settings ty st kwargs) = Some f ->
  init raw nm ty st kwargs = Raised ValueError.
Proof.
  intros Hn Hu Hf. apply init_raised.
  destruct (infer_freq_repeated _ Hu) as [E|E].
  { apply validate_series_raised, E. }
  rewrite validate_series_parts. cbv zeta. fold (trimmed raw).
  rewrite E, bind_Done.
  destruct (frequency_found_None
              (mkTimeSeries [] raw None nm ty (given_settings ty st kwargs) []))
    as [w Hw].
  rewrite Hw, bind_Done.
  unfold validate_rest. rewrite Hn.
  unfold fill_nan, with_freq_original. cbn [freq_original settings].
  rewrite Hf.
  rewrite (@asfreq_repeated _ f Hn Hu). reflexivity.
Qed.

Lemma gap_with_repeated_timestamp_raises_witness :
  init [(jan1, 1%float); (jan1 + day, PrimFloat.nan);
        (jan1 + 2 * day, 2%float); (jan1 + 2 * day, 3%float)]
       "h" (Some "prec"%string) [] [] = Raised ValueError.
Proof.
  apply (@gap_with_repeated_timestamp_raises _ _ _ _ _ (mkFreq 1 Days));
    reflexivity.
Defined.

(* ================================================================== *)
(** ** What an update leaves as it is *)
(* ================================================================== *)

(** X7.  Updates never validate again: after any number of updates an
    object has the stored series, the validated series, the original
    frequency, the name and the type it had before.  Each update changes
    the settings by its arguments and replaces the derived series. *)
Theorem updates_keep_validation (self self' : TimeSeries) :
  updated self self' ->
  series_original self' = series_original self /\
  series self' = series self /\
  freq_original self' = freq_original self /\
  name self' = name self /\
  type self' = type self.
Proof.
  induction 1 as [self|self kwargs self' self'' w Hup IH Hstep].
  - repeat split.
  - apply update_series_frame in Hstep.
    destruct IH as [I1 [I2 [I3 [I4 I5]]]].
    destruct Hstep as [S1 [S2 [S3 [S4 [S5 _]]]]].
    repeat split; congruence.
Qed.

Lemma updates_keep_validation_witness :
  match init half_daily "h" (Some "prec"%string) [] [] with
  | Done (p0, _) _ =>
      match update_series p0 [Settings.Kfreq (Some (mkFreq 6 Hours))] with
      | Done p1 _ =>
          series p1 = half_daily /\
          freq_original p1 = Some (mkFreq 12 Hours) /\
          Settings.freq (settings p1) = Some (mkFreq 6 Hours)
      | Raised _ => False
      end
  | Raised _ => False
  end.
Proof.
  destruct (init half_daily "h" (Some "prec"%string) [] [])
    as [[p0 a] w0|e] eqn:E0; [|vm_compute in E0; discriminate].
  vm_compute in E0. inversion E0; subst p0; clear E0.
  match goal with
  | |- match update_series ?p ?k with _ => _ end =>
      destruct (update_series p k) as [p1 w1|e] eqn:E1;
      [|vm_compute in E1; discriminate]
  end.
  pose proof (updates_keep_validation
                (updated_step _ (updated_none _) E1)) as [_ [K2 [K3 _]]].
  split; [rewrite K2; reflexivity|]. split; [rewrite K3; reflexivity|].
  vm_compute in E1. inversion E1. reflexivity.
Defined.

(* ================================================================== *)
(** ** Gaps at the ends after a change of frequency *)
(* ================================================================== *)

Lemma find_app {A} (P : A -> bool) l1 l2 :
  find P (l1 ++ l2) =
  match find P l1 with Some x => Some x | None => find P l2 end.
Proof.
  induction l1 as [|x l1 IH]; simpl; [reflexivity|].
  destruct (P x); [reflexivity | exact IH].
Qed.

Lemma first_valid_least s ra :
  increasing (index s) -> find valid_row s = Some ra ->
  forall r, In r s -> valid_row r = true -> fst ra <= fst r.
Proof.
  induction s as [|x s IH]; intros Hi Hf r Hr Hv; [destruct Hr|].
  simpl in Hf. destruct (valid_row x) eqn:Hx.
  - inversion Hf; subst. destruct Hr as [->|Hr]; [lia|].
    pose proof (increasing_lt_head _ _ Hi (fst r)
                  (in_map fst _ _ Hr)). lia.
  - destruct Hr as [->|Hr]; [congruence|].
    apply IH; auto. eapply increasing_tail; exact Hi.
Qed.

Lemma last_valid_greatest s rb :
  increasing (index s) -> find valid_row (rev s) = Some rb ->
  forall r, In r s -> valid_row r = true -> fst r <= fst rb.
Proof.
  induction s as [|x s IH]; intros Hi Hf r Hr Hv; [destruct Hr|].
  simpl in Hf. rewrite find_app in Hf.
  pose proof (increasing_tail _ _ Hi) as Hi'.
  destruct (find valid_row (rev s)) as [y|] eqn:Hy.
  - inversion Hf; subst. destruct Hr as [->|Hr]; [|apply IH; auto].
    apply find_some in Hy. destruct Hy as [Hy _]. apply in_rev in Hy.
    pose proof (increasing_lt_head _ _ Hi (fst rb)
                  (in_map fst _ _ Hy)). lia.
  - destruct Hr as [->|Hr].
    + simpl in Hf. rewrite Hv in Hf. inversion Hf. lia.
    + exfalso. pose proof (find_none _ _ Hy r) as Hn.
      rewrite Hn in Hv; [discriminate|]. apply in_rev in Hr. exact Hr.
Qed.

(** The trimming [series.loc[first_valid_index():last_valid_index()]] of a
    series with increasing labels: a valid row at the smallest and at the
    largest label, and every valid row kept. *)
Lemma trim_valid_ends s :
  increasing (index s) ->
  let s' := pd.loc s (pd.first_valid_index s) (pd.last_valid_index s) in
  (forall r, In r s -> valid_row r = true -> In r s') /\
  ((exists r, In r s /\ valid_row r = true) ->
   exists first last,
     In first s' /\ In last s' /\
     valid_row first = true /\ valid_row last = true /\
     forall r, In r s' -> fst first <= fst r <= fst last).
Proof.
  intros Hi s'. unfold s', pd.loc, pd.first_valid_index,
    pd.last_valid_index.
  destruct (find valid_row s) as [ra|] eqn:Ha.
  2:{ split.
      - intros r Hr Hv. rewrite (find_none _ _ Ha r Hr) in Hv. discriminate.
      - intros [r [Hr Hv]]. rewrite (find_none _ _ Ha r Hr) in Hv.
        discriminate. }
  destruct (find valid_row (rev s)) as [rb|] eqn:Hb.
  2:{ exfalso. apply find_some in Ha. destruct Ha as [Hin Hv].
      rewrite (find_none _ _ Hb ra) in Hv; [discriminate|].
      apply in_rev in Hin. exact Hin. }
  pose proof (first_valid_least _ Hi Ha) as Hleast.
  pose proof (last_valid_greatest _ Hi Hb) as Hgreat.
  apply find_some in Ha. destruct Ha as [Hain Hav].
  apply find_some in Hb. destruct Hb as [Hbin Hbv].
  apply in_rev in Hbin. cbn [option_map].
  assert (Hkeep : forall r, In r s -> valid_row r = true ->
            In r (filter (fun r0 => pd.in_slice (Some (fst ra))
                                      (Some (fst rb)) (fst r0)) s)).
  { intros r Hr Hv. apply filter_In. split; [exact Hr|].
    unfold pd.in_slice. apply andb_true_iff.
    split; apply Z.leb_le; auto. }
  split; [exact Hkeep|]. intros _.
  exists ra, rb. repeat split; auto.
  - apply filter_In in H. destruct H as [_ H]. unfold pd.in_slice in H.
    apply andb_true_iff in H. destruct H as [H _]. apply Z.leb_le, H.
  - apply filter_In in H. destruct H as [_ H]. unfold pd.in_slice in H.
    apply andb_true_iff in H. destruct H as [_ H]. apply Z.leb_le, H.
Qed.

(** [change_frequency] is one of its branches followed by the trimming. *)
Lemma change_frequency_parts self s s' w :
  change_frequency self s = Done s' w ->
  exists s1,
    s' = pd.loc s1 (pd.first_valid_index s1) (pd.last_valid_index s1) /\
    (increasing (index s) -> increasing (index s1)).
Proof.
  unfold change_frequency. intros H. apply bind_inv in H.
  destruct H as [s1 [w1 [w2 [Hs1 [Hret _]]]]].
  inversion Hret; subst. clear Hret. exists s1. split; [reflexivity|].
  destruct (Settings.freq (settings self)) as [f|] eqn:Hf.
  2:{ inversion Hs1; subst. auto. }
  unfold utils.get_dt in Hs1. rewrite bind_ret_l in Hs1.
  destruct (freq_original self) as [f0|] eqn:Hf0; [|discriminate].
  rewrite bind_ret_l in Hs1.
  destruct (Z.ltb_spec (freq_seconds f) (freq_seconds f0)).
  { apply sample_up_index in Hs1. intros _. apply Hs1. }
  destruct (Z.ltb_spec (freq_seconds f0) (freq_seconds f)).
  { apply sample_down_index in Hs1. apply Hs1. }
  destruct (Z.eqb_spec (freq_seconds f) (freq_seconds f0)); [|lia].
  apply fill_nan_index in Hs1. apply Hs1.
Qed.

(** X8.  The series [change_frequency] returns has no gap before its first
    or after its last observation: when it holds a valid row at all, it
    holds a valid row at its smallest and at its largest timestamp.  (The
    series given must have increasing timestamps, as a validated series
    has.) *)
Theorem change_frequency_trims_gaps
    (self : TimeSeries) (s s' : Series) (w : list Caution) :
  change_frequency self s = Done s' w ->
  increasing (index s) ->
  (exists r, In r s' /\ valid_row r = true) ->
  exists first last,
    In first s' /\ In last s' /\
    valid_row first = true /\ valid_row last = true /\
    forall r, In r s' -> fst first <= fst r <= fst last.
Proof.
  intros H Hi [r [Hr Hv]].
  destruct (change_frequency_parts _ _ H) as [s1 [-> Hinc]].
  destruct (trim_valid_ends s1 (Hinc Hi)) as [_ Hends].
  apply Hends. exists r. split; [|exact Hv].
  unfold pd.loc in Hr. apply filter_In in Hr. tauto.
Qed.

Lemma change_frequency_trims_gaps_witness :
  exists s' w,
    change_frequency median_policies (daily 3) = Done s' w /\
    exists first last,
      In first s' /\ In last s' /\
      valid_row first = true /\ valid_row last = true /\
      forall r, In r s' -> fst first <= fst r <= fst last.
Proof.
  assert (H : exists s' w,
            change_frequency median_policies (daily 3) = Done s' w /\
            In (jan1, 1%float) s').
  { vm_compute. do 2 eexists. split; [reflexivity|]. left. reflexivity. }
  destruct H as [s' [w [H Hin]]]. exists s', w. split; [exact H|].
  refine (@change_frequency_trims_gaps median_policies (daily 3) s' w H _ _).
  - vm_compute. repeat split.
  - exists (jan1, 1%float). split; [exact Hin | reflexivity].
Defined.

(* ================================================================== *)
(** ** Observations on and off the grid *)
(* ================================================================== *)

Lemma find_label_unique s t v :
  NoDup (index s) -> In (t, v) s ->
  find (fun r => fst r =? t) s = Some (t, v).
Proof.
  induction s as [|x s IH]; intros Hn Hin; [destruct Hin|].
  cbn [index map] in Hn. inversion Hn; subst. simpl.
  destruct Hin as [->|Hin].
  - simpl. rewrite Z.eqb_refl. reflexivity.
  - destruct (Z.eqb_spec (fst x) t) as [E|_]; [|apply IH; assumption].
    exfalso. match goal with H : ~ In _ _ |- _ => apply H end.
    rewrite E. apply (in_map fst _ _ Hin).
Qed.

Lemma reindex_keeps s idx m s' w t v :
  pd.reindex s idx m = Done s' w ->
  pd.is_unique (index s) = true ->
  In (t, v) s -> In t idx -> In (t, v) s'.
Proof.
  unfold pd.reindex. destruct (pd.labels_eqb idx (index s)).
  - intros H; inversion H; subst. auto.
  - intros H Hu Hin Ht. rewrite Hu in H. inversion H; subst.
    apply in_map_iff. exists t. split; [|exact Ht].
    unfold pd.at_label.
    rewrite (find_label_unique _ _ _ (proj1 (is_unique_NoDup _) Hu) Hin).
    reflexivity.
Qed.

Lemma asfreq_keeps s f m s' w lo t v :
  pd.asfreq s (Some f) m = Done s' w ->
  pd.is_unique (index s) = true ->
  pd.index_min s = Some lo ->
  In (t, v) s -> (t - lo) mod freq_seconds f = 0 ->
  In (t, v) s'.
Proof.
  unfold pd.asfreq. intros H Hu Hmin Hin Hg. rewrite Hmin in H.
  destruct (pd.index_max s) as [hi|] eqn:Hmax.
  2:{ inversion H; subst. exact Hin. }
  eapply reindex_keeps; eauto.
  pose proof (freq_seconds_pos f) as Hdt.
  assert (Ht : In t (index s)) by (apply (in_map fst _ _ Hin)).
  destruct (index_min_spec _ Hmin) as [_ Hlo].
  destruct (index_max_spec _ Hmax) as [_ Hhi].
  apply date_range_In; [exact Hdt|].
  exists ((t - lo) / freq_seconds f).
  pose proof (Z.div_mod (t - lo) (freq_seconds f) ltac:(lia)) as Hdm.
  rewrite Hg in Hdm.
  specialize (Hlo _ Ht). specialize (Hhi _ Ht).
  split; [apply Z.div_pos; lia|]. split; [lia | exact Hhi].
Qed.

Lemma asfreq_on_grid s f m s' w lo t :
  pd.asfreq s (Some f) m = Done s' w ->
  pd.index_min s = Some lo ->
  In t (index s') -> (t - lo) mod freq_seconds f = 0.
Proof.
  unfold pd.asfreq. intros H Hmin Ht. rewrite Hmin in H.
  destruct (pd.index_max s) as [hi|] eqn:Hmax.
  2:{ apply index_max_None in Hmax. subst. discriminate. }
  apply index_reindex in H. destruct H as [H _]. rewrite H in Ht.
  apply date_range_In in Ht; [|apply freq_seconds_pos].
  destruct Ht as [k [_ [-> _]]].
  replace (lo + k * freq_seconds f - lo) with (k * freq_seconds f) by lia.
  apply Z.mod_mul. pose proof (freq_seconds_pos f). lia.
Qed.

Lemma fillna_keeps x s t v :
  In (t, v) s -> notnull v = true -> In (t, v) (pd.fillna x s).
Proof.
  intros Hin Hv. unfold pd.fillna. apply in_map_iff.
  exists (t, v). split; [|exact Hin]. cbn [fst snd].
  unfold notnull in Hv. apply negb_true_iff in Hv. rewrite Hv. reflexivity.
Qed.

Lemma interpolate_from_keeps prev s t v :
  In (t, v) s -> notnull v = true -> In (t, v) (pd.interpolate_from prev s).
Proof.
  revert prev. induction s as [|r s IH]; intros prev Hin Hv; [destruct Hin|].
  cbn [pd.interpolate_from]. destruct Hin as [->|Hin].
  - cbn [snd]. unfold notnull in Hv. apply negb_true_iff in Hv.
    rewrite Hv. left. reflexivity.
  - destruct (isnull (snd r)); right; apply IH; assumption.
Qed.

Lemma dropna_keeps s t v :
  In (t, v) s -> notnull v = true -> In (t, v) (pd.dropna s).
Proof. intros Hin Hv. apply filter_In. split; assumption. Qed.

Lemma fill_tail_keeps (method : Policy) (a s' : Series) w t v :
  (if is_str method "mean" then ret (pd.fillna (pd.mean a) a)
   else if is_str method "interpolate" then ret (pd.interpolate_time a)
   else match is_float method with
        | Some x => ret (pd.fillna x a)
        | None => not_supported "sample_up" method ;;; ret a
        end) = Done s' w ->
  In (t, v) a -> notnull v = true -> In (t, v) s'.
Proof.
  destruct (is_str method "mean");
    [intros H; inversion H; apply fillna_keeps|].
  destruct (is_str method "interpolate");
    [intros H; inversion H; apply interpolate_from_keeps|].
  destruct (is_float method); intros H; inversion H; subst;
    [apply fillna_keeps | auto].
Qed.

(** X9.  Putting a series on a grid keeps what lies on the grid and drops
    what does not.  The grid starts at the first timestamp of the series.
    [sample_up] (grid of the configured frequency) and [fill_nan] (grid of
    the original frequency) keep, under every policy, each observation
    whose timestamp is a whole number of intervals after the first one,
    with its value; a row at any other timestamp has no row in the result. *)
Theorem regridding_keeps_what_is_on_the_grid
    (self : TimeSeries) (s : Series) (lo t : Timestamp) (v : float) :
  pd.is_unique (index s) = true ->
  pd.index_min s = Some lo ->
  In (t, v) s ->
  notnull v = true ->
  (forall f s' w,
     Settings.freq (settings self) = Some f ->
     sample_up self s = Done s' w ->
     ((t - lo) mod freq_seconds f = 0 -> In (t, v) s') /\
     ((t - lo) mod freq_seconds f <> 0 -> ~ In t (index s'))) /\
  (forall f0 s' w,
     freq_original self = Some f0 ->
     fill_nan self s = Done s' w ->
     ((t - lo) mod freq_seconds f0 = 0 -> In (t, v) s') /\
     ((t - lo) mod freq_seconds f0 <> 0 -> ~ In t (index s'))).
Proof.
  intros Hu Hmin Hin Hv. split.
  - intros f s' w Hf H. unfold sample_up in H. rewrite Hf in H.
    destruct (in_strs _ ["backfill"; "bfill"]%string).
    { split; [intros Hg; eapply asfreq_keeps; eauto|].
      intros Hg Ht. apply Hg. eapply asfreq_on_grid; eauto. }
    destruct (in_strs _ ["pad"; "ffill"]%string).
    { split; [intros Hg; eapply asfreq_keeps; eauto|].
      intros Hg Ht. apply Hg. eapply asfreq_on_grid; eauto. }
    apply bind_inv in H. destruct H as [a [w1 [w2 [Ha [Hk _]]]]].
    split.
    + intros Hg. eapply fill_tail_keeps; eauto. eapply asfreq_keeps; eauto.
    + intros Hg Ht. apply Hg. apply fill_tail_index in Hk.
      rewrite Hk in Ht. eapply asfreq_on_grid; eauto.
  - intros f0 s' w Hf0 H. unfold fill_nan in H. rewrite Hf0 in H.
    apply bind_inv in H. destruct H as [a [w1 [w2 [Ha [Hk _]]]]].
    destruct (is_str (Settings.fill_nan (settings self)) "drop").
    + inversion Hk; subst. split.
      * intros Hg. apply dropna_keeps; [|exact Hv].
        eapply asfreq_keeps; eauto.
      * intros Hg Ht. apply Hg. eapply asfreq_on_grid; eauto.
        unfold index in *. apply in_map_iff in Ht.
        destruct Ht as [r [<- Hr]]. apply filter_In in Hr.
        apply in_map, Hr.
    + split.
      * intros Hg. eapply fill_tail_keeps; eauto.
        eapply asfreq_keeps; eauto.
      * intros Hg Ht. apply Hg. apply fill_tail_index in Hk.
        rewrite Hk in Ht. eapply asfreq_on_grid; eauto.
Qed.

Lemma regridding_keeps_what_is_on_the_grid_witness :
  exists s' w,
    fill_nan (fresh_prec []) irregular = Done s' w /\
    In (jan1 + 3 * day, 3%float) s' /\
    (forall s'' w'',
       sample_up (blank freq_D (Settings.set default_settings
                    (Settings.Kfreq (Some (mkFreq 2 Days))))) irregular =
         Done s'' w'' ->
       ~ In (jan1 + day) (index s'')).
Proof.
  assert (H : exists s' w, fill_nan (fresh_prec []) irregular = Done s' w).
  { vm_compute. do 2 eexists. reflexivity. }
  destruct H as [s' [w H]]. exists s', w. split; [exact H|]. split.
  - destruct (@regridding_keeps_what_is_on_the_grid
                (fresh_prec []) irregular jan1 (jan1 + 3 * day) 3%float
                eq_refl eq_refl) as [_ T].
    + right. right. left. reflexivity.
    + reflexivity.
    + apply (T (mkFreq 1 Days) s' w eq_refl H). reflexivity.
  - intros s'' w'' H2.
    destruct (@regridding_keeps_what_is_on_the_grid
                (blank freq_D (Settings.set default_settings
                   (Settings.Kfreq (Some (mkFreq 2 Days)))))
                irregular jan1 (jan1 + day) 2%float
                eq_refl eq_refl) as [T _].
    + right. left. reflexivity.
    + reflexivity.
    + apply (T (mkFreq 2 Days) s'' w'' eq_refl H2). vm_compute. discriminate.
Defined.

(* ================================================================== *)
(** ** The extension before the series when the object has its index *)
(* ================================================================== *)

Lemma insert_label_In_iff t l x :
  In x (pd.insert_label t l) <-> x = t \/ In x l.
Proof.
  split; [apply insert_label_In|].
  induction l as [|y r IH]; simpl.
  - intros [->|[]]. left. reflexivity.
  - destruct (Z.ltb_spec t y).
    + intros [->|H']; [left; reflexivity | right; exact H'].
    + destruct (Z.eqb_spec t y) as [->|_].
      * intros [->|H']; [left; reflexivity | exact H'].
      * intros [->|[->|H']];
          [right; apply IH; left; reflexivity
          |left; reflexivity
          |right; apply IH; right; exact H'].
Qed.

Lemma sort_unique_In l x : In x (pd.sort_unique l) <-> In x l.
Proof.
  induction l as [|t l IH]; [reflexivity|].
  unfold pd.sort_unique in *. cbn [fold_right].
  rewrite insert_label_In_iff, IH. simpl. intuition.
Qed.

Lemma union_In a b x : In x (pd.union a b) <-> In x a \/ In x b.
Proof.
  unfold pd.union. destruct b as [|t r]; [simpl; tauto|].
  destruct (pd.labels_eqb a (t :: r)) eqn:E.
  - apply labels_eqb_eq in E. rewrite E. tauto.
  - destruct a as [|u a]; [simpl; tauto|].
    rewrite sort_unique_In, in_app_iff. tauto.
Qed.

Lemma fill_extension_keeps method s s' w t v :
  fill_extension method s = Done s' w ->
  In (t, v) s -> notnull v = true -> In (t, v) s'.
Proof.
  unfold fill_extension. destruct (is_str method "mean");
    [intros H; inversion H; apply fillna_keeps|].
  destruct (is_float method); intros H; inversion H; subst;
    [apply fillna_keeps | auto].
Qed.

(** X10.  When the index of the object already holds every timestamp of
    the series (as it does when an object is updated with a new [tmin] and
    nothing else), [fill_before] with a [tmin] before the first timestamp
    keeps every observation with its value and adds the extension: the
    result has the timestamps of the object, and the grid points from the
    corrected [tmin] up to, not including, the first timestamp of the
    series. *)
Theorem fill_before_extends_on_update
    (self : TimeSeries) (series : Series) (tmin lo : Timestamp) (f : Freq) :
  (forall t, In t (index series) -> In t (index (self_rows self))) ->
  pd.is_unique (index series) = true ->
  Settings.tmin (settings self) = Some tmin ->
  Settings.freq (settings self) = Some f ->
  pd.index_min series = Some lo ->
  tmin < lo ->
  exists s w,
    fill_before self series = Done s w /\
    (forall t v, In (t, v) series -> notnull v = true -> In (t, v) s) /\
    (forall t, In t (index s) <->
               In t (index (self_rows self)) \/
               In t (removelast
                       (pd.date_range (tmin - tmin mod freq_seconds f) lo
                                      (freq_seconds f)))).
Proof.
  intros Hcover Hu Htmin Hfreq Hmin Hlt.
  unfold fill_before. rewrite Htmin.
  rewrite (at_or_after_min_false _ Hmin Hlt).
  unfold reindex_before, utils.get_time_offset.
  rewrite Hfreq, Hmin, bind_ret_l.
  set (ext := removelast _).
  destruct (reindex_unique series
              (pd.union (index (self_rows self)) ext) pd.NoFill Hu)
    as [s1 Hs1].
  rewrite Hs1.
  destruct (fill_extension_total (Settings.fill_before (settings self)) s1)
    as [s2 [w2 Hs2]].
  exists s2, w2. rewrite bind_Done, Hs2. split; [reflexivity|]. split.
  - intros t v Hin Hv. eapply fill_extension_keeps; eauto.
    eapply reindex_keeps; eauto.
    apply union_In. left. apply Hcover. apply (in_map fst _ _ Hin).
  - intros t. apply index_fill_extension in Hs2.
    apply index_reindex in Hs1. destruct Hs1 as [Hs1 _].
    rewrite Hs2, Hs1. apply union_In.
Qed.

Lemma fill_before_extends_on_update_witness :
  exists p0 w0 s w,
    init (daily 3) "h" (Some "well"%string) [] [] = Done (p0, daily 3) w0 /\
    fill_before
      (with_settings p0
         (Settings.set (settings p0)
            (Settings.Ktmin (Some (jan1 - 2 * day + 12 * hour)))))
      (daily 3) = Done s w /\
    In (jan1, 1%float) s.
Proof.
  assert (H : exists p0 w0,
            init (daily 3) "h" (Some "well"%string) [] [] =
              Done (p0, daily 3) w0 /\
            self_rows p0 = daily 3 /\
            settings p0 = settings_of_type "well").
  { vm_compute. do 2 eexists. repeat split. }
  destruct H as [p0 [w0 [H0 [Hrows Hst]]]].
  destruct (@fill_before_extends_on_update
              (with_settings p0
                 (Settings.set (settings p0)
                    (Settings.Ktmin (Some (jan1 - 2 * day + 12 * hour)))))
              (daily 3) (jan1 - 2 * day + 12 * hour) jan1 (mkFreq 1 Days))
    as [s [w [Hs [Hkeep _]]]].
  - cbn [with_settings self_rows]. rewrite Hrows. auto.
  - reflexivity.
  - cbn [with_settings settings]. rewrite Hst. reflexivity.
  - cbn [with_settings settings]. rewrite Hst. reflexivity.
  - reflexivity.
  - vm_compute. reflexivity.
  - exists p0, w0, s, w. split; [exact H0|]. split; [exact Hs|].
    apply Hkeep; [left; reflexivity | reflexivity].
Defined.

(* ================================================================== *)
(** ** Validation of a series without gaps *)
(* ================================================================== *)

Lemma hasnans_false s :
  pd.hasnans s = false -> forall r, In r s -> valid_row r = true.
Proof.
  unfold pd.hasnans, values. intros H r Hr.
  unfold valid_row, notnull. apply negb_true_iff.
  destruct (isnull (snd r)) eqn:E; [|reflexivity].
  assert (existsb isnull (map snd s) = true); [|congruence].
  apply existsb_exists. exists (snd r). split; [apply in_map, Hr | exact E].
Qed.

Lemma all_valid_hasnans s :
  (forall r, In r s -> valid_row r = true) -> pd.hasnans s = false.
Proof.
  intros H. unfold pd.hasnans, values.
  destruct (existsb isnull (map snd s)) eqn:E; [|reflexivity].
  apply existsb_exists in E. destruct E as [v [Hv Hn]].
  apply in_map_iff in Hv. destruct Hv as [r [<- Hr]].
  specialize (H r Hr). unfold valid_row, notnull in H.
  rewrite Hn in H. discriminate.
Qed.

Lemma filter_all {A} (P : A -> bool) l :
  (forall x, In x l -> P x = true) -> filter P l = l.
Proof.
  induction l as [|x l IH]; intros H; [reflexivity|].
  simpl. rewrite (H x (or_introl eq_refl)). f_equal. apply IH.
  intros y Hy. apply H. right. exact Hy.
Qed.

Lemma strongly_sorted_last s y :
  StronglySorted label_le (s ++ [y]) -> forall r, In r s -> label_le r y.
Proof.
  induction s as [|x s IH]; intros H r Hr; [destruct Hr|].
  simpl in H. inversion H; subst. destruct Hr as [->|Hr].
  - rewrite Forall_forall in H3. apply H3. apply in_or_app. right.
    left. reflexivity.
  - apply IH; assumption.
Qed.

(** A chronological series without gaps is not shortened by the trimming
    of gaps at its ends. *)
Lemma trim_all_valid s :
  chronological s -> (forall r, In r s -> valid_row r = true) ->
  pd.loc s (pd.first_valid_index s) (pd.last_valid_index s) = s.
Proof.
  intros Hc Hv. apply chronological_strong in Hc.
  unfold pd.loc. apply filter_all. intros r Hr.
  unfold pd.in_slice, pd.first_valid_index, pd.last_valid_index.
  apply andb_true_iff. split.
  - destruct s as [|x s]; [destruct Hr|].
    simpl. rewrite (Hv x (or_introl eq_refl)). cbn [option_map].
    apply Z.leb_le. inversion Hc; subst.
    destruct Hr as [->|Hr]; [lia|].
    rewrite Forall_forall in H2. apply (H2 r Hr).
  - destruct (rev s) as [|y l] eqn:E.
    + reflexivity.
    + assert (Hs : s = rev l ++ [y]).
      { rewrite <- (rev_involutive s), E. reflexivity. }
      simpl.
      assert (Hy : valid_row y = true).
      { apply Hv. rewrite Hs. apply in_or_app. right. left. reflexivity. }
      rewrite Hy. cbn [option_map]. apply Z.leb_le.
      rewrite Hs in Hr, Hc. apply in_app_or in Hr.
      destruct Hr as [Hr|[<-|[]]]; [|lia].
      apply (strongly_sorted_last _ _ Hc r Hr).
Qed.

Lemma sort_index_valid raw :
  pd.hasnans raw = false ->
  forall r, In r (pd.sort_index raw) -> valid_row r = true.
Proof.
  intros H r Hr. apply (hasnans_false _ H).
  eapply Permutation_in; [apply Permutation_sym, sort_index_perm | exact Hr].
Qed.

Lemma trimmed_all_valid raw :
  pd.hasnans raw = false -> trimmed raw = pd.sort_index raw.
Proof.
  intros H. unfold trimmed. cbv zeta.
  apply trim_all_valid; [apply sort_index_sorted | apply sort_index_valid, H].
Qed.

(** The sort keeps rows with one label in their order. *)
Lemma filter_insert_row t r s :
  chronological s ->
  filter (fun x => fst x =? t) (pd.insert_row r s) =
  (if fst r =? t then [r] else []) ++ filter (fun x => fst x =? t) s.
Proof.
  intros Hc. apply chronological_strong in Hc.
  induction Hc as [|x s Hs IH Hx]; [simpl; destruct (fst r =? t); reflexivity|].
  cbn [pd.insert_row].
  destruct (Z.leb_spec (fst r) (fst x)) as [Hle|Hgt].
  - cbn [filter]. destruct (fst r =? t); reflexivity.
  - cbn [filter]. rewrite IH.
    destruct (Z.eqb_spec (fst x) t) as [Ex|_];
      destruct (Z.eqb_spec (fst r) t) as [Er|_]; try reflexivity.
    lia.
Qed.

Lemma filter_sort_index t raw :
  filter (fun x => fst x =? t) (pd.sort_index raw) =
  filter (fun x => fst x =? t) raw.
Proof.
  induction raw as [|r raw IH]; [reflexivity|].
  cbn [pd.sort_index fold_right].
  change (fold_right pd.insert_row [] raw) with (pd.sort_index raw).
  rewrite filter_insert_row by apply sort_index_sorted.
  rewrite IH. simpl. destruct (fst r =? t); reflexivity.
Qed.

Lemma is_unique_perm a b :
  Permutation a b -> pd.is_unique a = pd.is_unique b.
Proof.
  intros H. destruct (pd.is_unique a) eqn:Ea; destruct (pd.is_unique b) eqn:Eb;
    try reflexivity.
  - apply is_unique_NoDup in Ea.
    apply (Permutation_NoDup H) in Ea. apply is_unique_NoDup in Ea.
    congruence.
  - apply is_unique_NoDup in Eb.
    apply (Permutation_NoDup (Permutation_sym H)) in Eb.
    apply is_unique_NoDup in Eb. congruence.
Qed.

Lemma index_sort_index_perm raw :
  Permutation (index raw) (index (pd.sort_index raw)).
Proof. apply Permutation_map, sort_index_perm. Qed.

(** X11.  Validation of a series without gaps keeps exactly the timestamps
    of the input, each once, in increasing order.  When no timestamp is
    repeated, the validated rows are the rows of the input; otherwise the
    value at a timestamp is the mean of the values the input has there
    (summed in some order: the order of rows with one timestamp after
    sorting is not relied on). *)
Theorem validation_merges_repeated_timestamps
    (self : TimeSeries) (raw : Series)
    (self1 : TimeSeries) (validated argument : Series) (w : list Caution) :
  pd.hasnans raw = false ->
  validate_series self raw = Done (self1, validated, argument) w ->
  increasing (index validated) /\
  (forall t, In t (index validated) <-> In t (index raw)) /\
  (forall t x, In (t, x) validated ->
     if pd.is_unique (index raw) then In (t, x) raw
     else exists vs,
            Permutation vs (values (filter (fun r => fst r =? t) raw)) /\
            x = pd.aggregate pd.AggMean vs).
Proof.
  intros Hn H.
  split; [eapply validate_series_increasing; exact H|].
  rewrite validate_series_parts in H. cbv zeta in H.
  fold (trimmed raw) in H. rewrite (trimmed_all_valid _ Hn) in H.
  apply bind_inv in H. destruct H as [freq [? [? [_ [H _]]]]].
  apply bind_inv in H. destruct H as [s [? [? [_ [H _]]]]].
  unfold validate_rest in H.
  rewrite (all_valid_hasnans _ (sort_index_valid _ Hn)) in H.
  rewrite bind_ret_l in H. inversion H; subst. clear H.
  rewrite <- (is_unique_perm (index_sort_index_perm raw)).
  destruct (pd.is_unique (index raw)) eqn:Hu.
  - split.
    + intros t. split; apply Permutation_in;
        [apply Permutation_sym|]; apply index_sort_index_perm.
    + intros t v. apply Permutation_in, Permutation_sym, sort_index_perm.
  - split.
    + intros t. rewrite index_groupby_mean, sort_unique_In.
      split; apply Permutation_in;
        [apply Permutation_sym|]; apply index_sort_index_perm.
    + intros t v Hin. unfold pd.groupby_mean in Hin.
      apply in_map_iff in Hin. destruct Hin as [t' [E _]].
      inversion E; subst. rewrite filter_sort_index.
      eexists. split; [apply Permutation_refl | reflexivity].
Qed.

Lemma validation_merges_repeated_timestamps_witness :
  exists self1 validated w,
    validate_series (blank None default_settings)
      [(jan1 + day, 2%float); (jan1, 1%float); (jan1, 3%float);
       (jan1 + 2 * day, 5%float)] =
      Done (self1, validated,
            [(jan1, 1%float); (jan1, 3%float); (jan1 + day, 2%float);
             (jan1 + 2 * day, 5%float)]) w /\
    increasing (index validated) /\
    In (jan1, 2%float) validated.
Proof.
  assert (H : exists self1 validated w,
    validate_series (blank None default_settings)
      [(jan1 + day, 2%float); (jan1, 1%float); (jan1, 3%float);
       (jan1 + 2 * day, 5%float)] =
      Done (self1, validated,
            [(jan1, 1%float); (jan1, 3%float); (jan1 + day, 2%float);
             (jan1 + 2 * day, 5%float)]) w /\
    In (jan1, 2%float) validated).
  { vm_compute. do 3 eexists. split; [reflexivity|]. left. reflexivity. }
  destruct H as [self1 [validated [w [H Hin]]]].
  exists self1, validated, w. split; [exact H|]. split; [|exact Hin].
  refine (proj1 (@validation_merges_repeated_timestamps _ _ _ _ _ _ _ H)).
  reflexivity.
Defined.

(* ================================================================== *)
(** ** Running the pipeline again *)
(* ================================================================== *)

Lemma set_set_same st i j :
  same_key i j = true -> Settings.set (Settings.set st i) j = Settings.set st j.
Proof. destruct i, j; try discriminate; intros _; destruct st; reflexivity. Qed.

Lemma set_set_comm st i j :
  same_key i j = false ->
  Settings.set (Settings.set st i) j = Settings.set (Settings.set st j) i.
Proof. destruct i, j; try discriminate; intros _; destruct st; reflexivity. Qed.

Lemma set_update_set d st i :
  Settings.set (Settings.update (Settings.set st i) d) i =
  Settings.set (Settings.update st d) i.
Proof.
  revert st. induction d as [|j d IH]; intros st.
  - unfold Settings.update. cbn [fold_left]. apply set_set_same.
    destruct i; reflexivity.
  - unfold Settings.update in *. cbn [fold_left].
    destruct (same_key i j) eqn:E.
    + rewrite (set_set_same _ _ _ E). reflexivity.
    + rewrite (set_set_comm _ _ _ E). apply IH.
Qed.

(** Updating a dictionary twice with the same arguments is updating it
    once. *)
Lemma update_twice d st :
  Settings.update (Settings.update st d) d = Settings.update st d.
Proof.
  induction d as [|i d IH] using rev_ind; [reflexivity|].
  rewrite !update_app. unfold Settings.update at 1 3 5. cbn [fold_left].
  rewrite set_update_set. fold (Settings.update (Settings.update st d) d).
  rewrite IH. reflexivity.
Qed.

(** Lists with strictly increasing elements are equal when they have the
    same elements. *)
Lemma increasing_ext a b :
  increasing a -> increasing b -> (forall x, In x a <-> In x b) -> a = b.
Proof.
  revert b. induction a as [|x a IH]; intros b Ha Hb H.
  - destruct b as [|y b]; [reflexivity|].
    exfalso. apply (proj2 (H y)). left. reflexivity.
  - destruct b as [|y b].
    + exfalso. apply (proj1 (H x)). left. reflexivity.
    + pose proof (increasing_lt_head _ _ Ha) as Hxa.
      pose proof (increasing_lt_head _ _ Hb) as Hyb.
      assert (x = y).
      { destruct (proj1 (H x) (or_introl eq_refl)) as [E|Hin]; [auto|].
        destruct (proj2 (H y) (or_introl eq_refl)) as [E|Hin']; [auto|].
        specialize (Hxa _ Hin'). specialize (Hyb _ Hin). lia. }
      subst y. f_equal. apply IH.
      * eapply increasing_tail; exact Ha.
      * eapply increasing_tail; exact Hb.
      * intros z. split; intros Hz.
        -- destruct (proj1 (H z) (or_intror Hz)) as [E|Hin]; [|exact Hin].
           specialize (Hxa _ Hz). lia.
        -- destruct (proj2 (H z) (or_intror Hz)) as [E|Hin]; [|exact Hin].
           specialize (Hyb _ Hz). lia.
Qed.

Lemma union_twice a b :
  increasing a -> increasing b ->
  pd.union (pd.union a b) b = pd.union a b.
Proof.
  intros Ha Hb. apply increasing_ext.
  - apply union_increasing; [apply union_increasing|]; assumption.
  - apply union_increasing; assumption.
  - intros x. rewrite !union_In. tauto.
Qed.

Lemma removelast_date_range_increasing a b dt :
  0 < dt -> increasing (removelast (pd.date_range a b dt)).
Proof.
  intros H. eapply spaced_increasing; eauto using removelast_date_range_spaced.
Qed.

(** [fill_before] and [fill_after] read the object for its settings and
    for the index of its rows. *)
Lemma fill_before_same_index self self' s :
  settings self' = settings self ->
  index (self_rows self') = index (self_rows self) ->
  fill_before self' s = fill_before self s.
Proof.
  intros Hs Hi. unfold fill_before, reindex_before. rewrite Hs, Hi.
  reflexivity.
Qed.

Lemma fill_after_same_index self self' s :
  settings self' = settings self ->
  index (self_rows self') = index (self_rows self) ->
  fill_after self' s = fill_after self s.
Proof.
  intros Hs Hi. unfold fill_after, reindex_after. rewrite Hs, Hi.
  reflexivity.
Qed.

(** [fill_before] either leaves the series alone, whatever the rows of
    the object, or puts it on the union of the index of the object with an
    extension. *)
Lemma fill_before_cases self s s' w :
  fill_before self s = Done s' w ->
  (s' = s /\
   forall self2, settings self2 = settings self ->
                 fill_before self2 s = Done s' w) \/
  (exists ext, increasing ext /\
     index s' = pd.union (index (self_rows self)) ext /\
     forall self2,
       settings self2 = settings self ->
       pd.union (index (self_rows self2)) ext =
         pd.union (index (self_rows self)) ext ->
       fill_before self2 s = Done s' w).
Proof.
  unfold fill_before.
  destruct (Settings.tmin (settings self)) as [tmin|] eqn:Ht.
  2:{ intros H; inversion H; subst. left. split; [reflexivity|].
      intros self2 Hs2. rewrite Hs2, Ht. reflexivity. }
  destruct (at_or_after_min tmin s) eqn:Ha.
  { intros H; inversion H; subst. left. split; [reflexivity|].
    intros self2 Hs2. rewrite Hs2, Ht, Ha. reflexivity. }
  intros H. right. pose proof H as H'.
  apply bind_inv in H'. destruct H' as [a [w1 [w2 [Hr [Hk _]]]]].
  unfold reindex_before, utils.get_time_offset in Hr, H.
  destruct (Settings.freq (settings self)) as [f|] eqn:Hf; [|discriminate].
  rewrite bind_ret_l in Hr, H.
  destruct (pd.index_min s) as [lo|] eqn:Hmin; [|discriminate].
  set (ext := removelast _) in *.
  exists ext. split; [apply removelast_date_range_increasing,
                        freq_seconds_pos|].
  apply index_fill_extension in Hk. apply index_reindex in Hr.
  destruct Hr as [Hr _]. split; [congruence|].
  intros self2 Hs2 Hi2.
  unfold reindex_before, utils.get_time_offset.
  rewrite Hs2, Ht, Ha, Hf, bind_ret_l, Hmin.
  fold ext. rewrite Hi2. exact H.
Qed.

(** [fill_after] either leaves the series alone, whatever the rows of the
    object, or puts it on the index of the object. *)
Lemma fill_after_cases self s s' w :
  fill_after self s = Done s' w ->
  (s' = s /\
   forall self2, settings self2 = settings self ->
                 fill_after self2 s = Done s' w) \/
  (index s' = index (self_rows self) /\
   forall self2,
     settings self2 = settings self ->
     index (self_rows self2) = index (self_rows self) ->
     fill_after self2 s = Done s' w).
Proof.
  unfold fill_after.
  destruct (Settings.tmax (settings self)) as [tmax|] eqn:Ht.
  2:{ intros H; inversion H; subst. left. split; [reflexivity|].
      intros self2 Hs2. rewrite Hs2, Ht. reflexivity. }
  destruct (at_or_before_max tmax s) eqn:Ha.
  { intros H; inversion H; subst. left. split; [reflexivity|].
    intros self2 Hs2. rewrite Hs2, Ht, Ha. reflexivity. }
  intros H. right. pose proof H as H'.
  apply bind_inv in H'. destruct H' as [a [w1 [w2 [Hr [Hk _]]]]].
  unfold reindex_after, utils.get_time_offset in Hr.
  destruct (Settings.freq (settings self)) as [f|] eqn:Hf; [|discriminate].
  rewrite bind_ret_l in Hr.
  destruct (pd.index_max s) as [hi|] eqn:Hmax; [|discriminate].
  assert (Hlt : hi < tmax).
  { unfold at_or_before_max in Ha. rewrite Hmax in Ha.
    apply Z.leb_gt in Ha. exact Ha. }
  rewrite removelast_short_range, union_nil_r in Hr.
  2: apply freq_seconds_pos.
  2:{ pose proof (Z.mod_pos_bound tmax (freq_seconds f)
                    (freq_seconds_pos f)). lia. }
  apply index_fill_extension in Hk. apply index_reindex in Hr.
  destruct Hr as [Hr _]. split; [congruence|].
  intros self2 Hs2 Hi2.
  rewrite <- H. unfold reindex_after. rewrite Hs2, Ht, Ha, Hi2.
  reflexivity.
Qed.

(** X12.  Running the pipeline again with the same arguments changes
    nothing: an update of an object, repeated on its result, returns that
    result, with the same derived series and the same cautions. *)
Theorem update_series_again
    (self : TimeSeries) (kwargs : list Settings.item)
    (self1 : TimeSeries) (w : list Caution) :
  reachable self ->
  update_series self kwargs = Done self1 w ->
  update_series self1 kwargs = Done self1 w.
Proof.
  intros Hreach H.
  destruct (reachable_invariant Hreach) as [_ [Hrows _]].
  destruct kwargs as [|k kwargs]; [inversion H; reflexivity|].
  unfold update_series in H.
  set (kw := k :: kwargs) in *.
  set (self' := with_settings self (Settings.update (settings self) kw)) in *.
  unfold series_of in H.
  destruct (change_frequency self' (series self)) as [s1 c1|] eqn:H1;
    [|discriminate].
  rewrite bind_Done in H.
  destruct (fill_before self' s1) as [s2 c2|] eqn:H2;
    [|discriminate].
  rewrite bind_Done in H.
  destruct (fill_after self' s2) as [s3 c3|] eqn:H3;
    [|discriminate].
  rewrite bind_Done in H.
  destruct (normalize self' s3) as [s4 c4|] eqn:H4;
    [|discriminate].
  rewrite bind_Done in H.
  assert (Hself1 : self1 = _update_inplace self' s4)
    by (unfold ret in H; inversion H; reflexivity).
  assert (H4i : index s4 = index s3) by (eapply normalize_index; eauto).
  (* the second run starts from the object the first one returned *)
  assert (Hset : with_settings self1 (Settings.update (settings self1) kw)
                 = self1).
  { rewrite Hself1. unfold self'.
    cbn [_update_inplace settings with_settings].
    rewrite update_twice. reflexivity. }
  unfold update_series. fold kw. rewrite Hset. unfold series_of.
  assert (Hrows' : increasing (index (self_rows self'))) by exact Hrows.
  assert (E1 : change_frequency self1 (series self1) = Done s1 c1)
    by (rewrite Hself1; exact H1).
  assert (E4 : normalize self1 s3 = Done s4 c4)
    by (rewrite Hself1; exact H4).
  assert (Hst : settings self1 = settings self')
    by (rewrite Hself1; reflexivity).
  assert (Hidx : index (self_rows self1) = index s3)
    by (rewrite Hself1; exact H4i).
  assert (E23 : fill_before self1 s1 = Done s2 c2 /\
                fill_after self1 s2 = Done s3 c3).
  { destruct (fill_after_cases _ _ H3) as [[E3 K3]|[I3 K3]].
    - (* nothing was added after the series *)
      subst s3. split; [|apply K3, Hst].
      destruct (fill_before_cases _ _ H2) as [[_ K2]|[ext [Hext [I2 K2]]]].
      + apply K2, Hst.
      + apply K2; [exact Hst|]. rewrite Hidx, I2.
        apply union_twice; assumption.
    - (* the series was put on the index of the object *)
      assert (Hsame : index (self_rows self1) = index (self_rows self'))
        by congruence.
      split; [|apply K3; [exact Hst | exact Hsame]].
      destruct (fill_before_cases _ _ H2) as [[_ K2]|[ext [_ [_ K2]]]].
      + apply K2, Hst.
      + apply K2; [exact Hst|]. rewrite Hsame. reflexivity. }
  destruct E23 as [E2 E3].
  rewrite E1, bind_Done, E2, bind_Done, E3, bind_Done, E4, bind_Done.
  rewrite <- H. unfold ret. f_equal. rewrite Hself1. reflexivity.
Qed.

Lemma update_series_again_witness :
  match init (daily 3) "h" (Some "well"%string) [] [] with
  | Done (p0, _) _ =>
      match update_series p0
              [Settings.Ktmin (Some (jan1 - 2 * day + 12 * hour))] with
      | Done p1 w1 =>
          update_series p1
            [Settings.Ktmin (Some (jan1 - 2 * day + 12 * hour))] =
            Done p1 w1
      | Raised _ => False
      end
  | Raised _ => False
  end.
Proof.
  destruct (init (daily 3) "h" (Some "well"%string) [] [])
    as [[p0 a] w0|e] eqn:E0; [|vm_compute in E0; discriminate].
  pose proof (reach_init _ _ _ _ _ E0) as Hreach.
  match goal with
  | |- match update_series ?p ?k with _ => _ end =>
      destruct (update_series p k) as [p1 w1|e] eqn:E1
  end.
  - exact (@update_series_again _ _ _ _ Hreach E1).
  - vm_compute in E0. inversion E0; subst p0.
    vm_compute in E1. discriminate.
Defined.

(* ================================================================== *)
(** ** A series that is already on its grid *)
(* ================================================================== *)

Lemma spaced_constant_step d l : spaced d l -> pd.constant_step d l = true.
Proof.
  induction l as [|t [|t' r] IH]; simpl; auto.
  intros [E H]. apply andb_true_iff. split; [apply Z.eqb_eq; lia | auto].
Qed.

Lemma freq_of_seconds_seconds d :
  0 < d -> freq_seconds (pd.freq_of_seconds d) = d.
Proof.
  intros Hd. unfold pd.freq_of_seconds.
  assert (Hunit : forall u, 0 < u -> d mod u = 0 ->
            Z.pos (Z.to_pos (d / u)) * u = d).
  { intros u Hu Hm.
    pose proof (Z.div_mod d u ltac:(lia)) as Hdm. rewrite Hm in Hdm.
    assert (0 < d / u) by nia.
    rewrite Z2Pos.id by assumption. lia. }
  destruct (Z.eqb_spec (d mod 86400) 0) as [E|_].
  { unfold freq_seconds. cbn [mult alias unit_seconds]. apply Hunit; lia. }
  destruct (Z.eqb_spec (d mod 3600) 0) as [E|_].
  { unfold freq_seconds. cbn [mult alias unit_seconds]. apply Hunit; lia. }
  destruct (Z.eqb_spec (d mod 60) 0) as [E|_].
  { unfold freq_seconds. cbn [mult alias unit_seconds]. apply Hunit; lia. }
  unfold freq_seconds. cbn [mult alias unit_seconds].
  rewrite Z2Pos.id by assumption. lia.
Qed.

Lemma infer_freq_spaced d idx :
  0 < d -> spaced d idx -> (3 <= List.length idx)%nat ->
  pd.infer_freq idx = Done (Some (pd.freq_of_seconds d)) [].
Proof.
  intros Hd Hs Hl. unfold pd.infer_freq.
  destruct idx as [|t0 [|t1 [|t2 r]]]; simpl in Hl; try lia.
  assert (E : t1 - t0 = d) by (cbn in Hs; lia).
  rewrite E, (@spaced_constant_step _ _ Hs).
  destruct (Z.ltb_spec 0 d); [reflexivity | lia].
Qed.

Lemma spaced_as_range d t0 r :
  spaced d (t0 :: r) ->
  t0 :: r = map (fun k => t0 + Z.of_nat k * d) (seq 0 (S (List.length r))).
Proof.
  revert t0. induction r as [|t1 r IH]; intros t0 H.
  - cbn. f_equal. lia.
  - destruct H as [E H]. specialize (IH t1 H).
    cbn [List.length]. rewrite <- cons_seq.
    cbn [map]. f_equal; [lia|].
    rewrite <- seq_shift, map_map. rewrite IH at 1.
    apply map_ext. intros k. rewrite Nat2Z.inj_succ. lia.
Qed.

Lemma date_range_of_spaced d s :
  0 < d -> spaced d (index s) ->
  forall lo hi, pd.index_min s = Some lo -> pd.index_max s = Some hi ->
  pd.date_range lo hi d = index s.
Proof.
  intros Hd Hs lo hi Hmin Hmax.
  destruct (@index_min_spec _ _ Hmin) as [Hlo_in Hlo].
  destruct (@index_max_spec _ _ Hmax) as [Hhi_in Hhi].
  destruct (index s) as [|t0 r] eqn:E; [destruct Hlo_in|].
  pose proof (@spaced_as_range _ _ _ Hs) as Hr.
  set (n := List.length r) in *.
  assert (Hmem : forall x, In x (t0 :: r) <->
            exists k, (k <= n)%nat /\ x = t0 + Z.of_nat k * d).
  { intros x. rewrite Hr at 1. rewrite in_map_iff. split.
    - intros [k [<- Hk]]. apply in_seq in Hk. exists k. split; [lia|auto].
    - intros [k [Hk ->]]. exists k. split; [reflexivity|].
      apply in_seq. lia. }
  assert (Elo : lo = t0).
  { apply Hmem in Hlo_in. destruct Hlo_in as [k [_ ->]].
    specialize (Hlo t0 (or_introl eq_refl)). nia. }
  assert (Ehi : hi = t0 + Z.of_nat n * d).
  { apply Hmem in Hhi_in. destruct Hhi_in as [k [Hk ->]].
    assert (Hn : In (t0 + Z.of_nat n * d) (t0 :: r)).
    { apply Hmem. exists n. split; [lia | reflexivity]. }
    specialize (Hhi _ Hn). assert (k = n) by nia. subst k. reflexivity. }
  subst lo hi. unfold pd.date_range.
  destruct (Z.ltb_spec (t0 + Z.of_nat n * d) t0); [nia|].
  replace (t0 + Z.of_nat n * d - t0) with (Z.of_nat n * d) by lia.
  rewrite Z.div_mul by lia. rewrite Nat2Z.id. symmetry. exact Hr.
Qed.

Lemma asfreq_of_spaced s f m :
  spaced (freq_seconds f) (index s) ->
  pd.asfreq s (Some f) m = Done s [].
Proof.
  intros Hs. unfold pd.asfreq.
  destruct (pd.index_min s) as [lo|] eqn:Hmin; [|reflexivity].
  destruct (pd.index_max s) as [hi|] eqn:Hmax; [|reflexivity].
  rewrite (@date_range_of_spaced _ _ (freq_seconds_pos f) Hs _ _ Hmin Hmax).
  unfold pd.reindex.
  rewrite (proj2 (labels_eqb_eq (index s) (index s)) eq_refl).
  reflexivity.
Qed.

Lemma fillna_all_valid x s :
  (forall r, In r s -> valid_row r = true) -> pd.fillna x s = s.
Proof.
  intros H. unfold pd.fillna. rewrite <- (map_id s) at 2.
  apply map_ext_in. intros r Hr. specialize (H r Hr).
  unfold valid_row, notnull in H. apply negb_true_iff in H. rewrite H.
  destruct r; reflexivity.
Qed.

Lemma interpolate_all_valid prev s :
  (forall r, In r s -> valid_row r = true) ->
  pd.interpolate_from prev s = s.
Proof.
  revert prev. induction s as [|r s IH]; intros prev H; [reflexivity|].
  cbn [pd.interpolate_from].
  pose proof (H r (or_introl eq_refl)) as Hr.
  unfold valid_row, notnull in Hr. apply negb_true_iff in Hr. rewrite Hr.
  f_equal. apply IH. intros y Hy. apply H. right. exact Hy.
Qed.

Lemma fill_nan_of_clean self s f0 :
  freq_original self = Some f0 ->
  spaced (freq_seconds f0) (index s) ->
  (forall r, In r s -> valid_row r = true) ->
  exists w, fill_nan self s = Done s w.
Proof.
  intros Hf Hs Hv. unfold fill_nan. rewrite Hf.
  rewrite (@asfreq_of_spaced s f0 _ Hs), bind_Done.
  destruct (is_str _ "drop").
  { unfold pd.dropna. rewrite (@filter_all _ _ _ Hv). eexists; reflexivity. }
  destruct (is_str _ "mean").
  { rewrite (@fillna_all_valid _ _ Hv). eexists; reflexivity. }
  destruct (is_str _ "interpolate").
  { unfold pd.interpolate_time. rewrite (@interpolate_all_valid _ _ Hv).
    eexists; reflexivity. }
  destruct (is_float _).
  { rewrite (@fillna_all_valid _ _ Hv). eexists; reflexivity. }
  eexists; reflexivity.
Qed.

Lemma change_frequency_of_clean self s f f0 :
  Settings.freq (settings self) = Some f ->
  freq_original self = Some f0 ->
  freq_seconds f = freq_seconds f0 ->
  spaced (freq_seconds f0) (index s) ->
  (forall r, In r s -> valid_row r = true) ->
  exists w, change_frequency self s = Done s w.
Proof.
  intros Hf Hf0 E Hs Hv. unfold change_frequency, utils.get_dt.
  rewrite Hf, Hf0, !bind_ret_l, E, Z.ltb_irrefl, Z.eqb_refl.
  destruct (@fill_nan_of_clean self s f0 Hf0 Hs Hv) as [w Hw].
  rewrite Hw, bind_Done.
  rewrite trim_all_valid; [eexists; reflexivity| |exact Hv].
  apply increasing_chronological.
  eapply spaced_increasing; eauto using freq_seconds_pos.
Qed.

(** X13.  A series that needs nothing is derived as it is: a series of at
    least three rows without gaps, with a constant spacing that is the
    spacing of the configured frequency (or with no frequency configured),
    with no window and no normalisation asked for, is its own derived
    series, under every policy. *)
Theorem clean_series_is_derived_as_given
    (raw : Series) (nm : string) (ty : option string)
    (st kwargs : list Settings.item) (d : Z) :
  let st0 := given_settings ty st kwargs in
  (3 <= List.length raw)%nat ->
  0 < d ->
  spaced d (index raw) ->
  pd.hasnans raw = false ->
  (forall f, Settings.freq st0 = Some f -> freq_seconds f = d) ->
  Settings.tmin st0 = None ->
  Settings.tmax st0 = None ->
  is_str (Settings.norm st0) "mean" = false ->
  derived (init raw nm ty st kwargs) = Some raw.
Proof.
  intros st0 Hlen Hd Hs Hn Hfreq Htmin Htmax Hnorm.
  pose proof (@spaced_increasing d _ Hd Hs) as Hinc.
  pose proof (@increasing_chronological _ Hinc) as Hchron.
  pose proof (@hasnans_false _ Hn) as Hvalid.
  set (f0 := pd.freq_of_seconds d).
  assert (Ef0 : freq_seconds f0 = d) by apply freq_of_seconds_seconds, Hd.
  unfold init. fold (given_settings ty st kwargs). fold st0.
  rewrite validate_series_parts. cbv zeta.
  fold (trimmed raw). rewrite (@trimmed_all_valid _ Hn).
  rewrite (@sort_index_chronological _ Hchron).
  rewrite (@infer_freq_spaced d (index raw) Hd Hs)
    by (unfold index; rewrite length_map; exact Hlen).
  rewrite bind_Done. fold f0.
  set (stA := match Settings.freq st0 with
              | Some _ => st0
              | None => Settings.set st0 (Settings.Kfreq (Some f0))
              end).
  assert (HA : exists fA, Settings.freq stA = Some fA /\ freq_seconds fA = d).
  { unfold stA. destruct (Settings.freq st0) as [f|] eqn:E.
    - exists f. split; [exact E | apply Hfreq; reflexivity].
    - exists f0. split; [destruct st0; reflexivity | exact Ef0]. }
  assert (HtminA : Settings.tmin stA = None).
  { unfold stA. destruct (Settings.freq st0); [exact Htmin|].
    destruct st0; exact Htmin. }
  assert (HtmaxA : Settings.tmax stA = None).
  { unfold stA. destruct (Settings.freq st0); [exact Htmax|].
    destruct st0; exact Htmax. }
  assert (HnormA : is_str (Settings.norm stA) "mean" = false).
  { unfold stA. destruct (Settings.freq st0); [exact Hnorm|].
    destruct st0; exact Hnorm. }
  set (selfA := mkTimeSeries [] raw (Some f0) nm ty stA []).
  assert (Efound :
    frequency_found (mkTimeSeries [] raw None nm ty st0 []) (Some f0)
    = ret selfA).
  { unfold frequency_found, selfA, stA, with_freq_original, with_settings.
    cbn [settings series_original self_rows name type series freq_original].
    destruct (Settings.freq st0); reflexivity. }
  rewrite Efound, bind_ret_l. clear Efound.
  unfold validate_rest. rewrite Hn, bind_ret_l.
  rewrite (@increasing_is_unique _ Hinc).
  unfold ret at 1. cbn [app]. rewrite bind_Done.
  cbv beta iota.
  unfold update_series, settings_of, Settings.items.
  fold (Settings.items (settings (with_series selfA raw))).
  rewrite update_items. unfold series_of.
  cbn [with_series settings series].
  set (self' := with_settings _ _).
  destruct HA as [fA [HfA EfA]].
  destruct (@change_frequency_of_clean self' raw fA f0) as [w1 Hw1];
    try assumption; try reflexivity.
  { congruence. }
  { rewrite Ef0. exact Hs. }
  rewrite Hw1, bind_Done.
  assert (E2 : fill_before self' raw = Done raw []).
  { unfold fill_before. cbn [self' with_settings settings].
    change (settings selfA) with stA. rewrite HtminA. reflexivity. }
  assert (E3 : fill_after self' raw = Done raw []).
  { unfold fill_after. cbn [self' with_settings settings].
    change (settings selfA) with stA. rewrite HtmaxA. reflexivity. }
  assert (E4 : normalize self' raw = Done raw []).
  { unfold normalize. cbn [self' with_settings settings].
    change (settings selfA) with stA. rewrite HnormA. destruct (Settings.norm stA); reflexivity. }
  rewrite E2, bind_Done, E3, bind_Done, E4, bind_Done.
  reflexivity.
Qed.

Lemma clean_series_is_derived_as_given_witness :
  derived (init (daily 5) "h" (Some "evap"%string) [] []) = Some (daily 5).
Proof.
  apply (@clean_series_is_derived_as_given (daily 5) "h"
           (Some "evap"%string) [] [] day);
    try reflexivity.
  - vm_compute. lia.
  - vm_compute. repeat split.
  - intros f H. vm_compute in H. inversion H. reflexivity.
Defined.

(* ================================================================== *)
(** ** The normalisation option *)
(* ================================================================== *)

Lemma update_series_last self kwargs i :
  update_series self (kwargs ++ [i]) =
  (let self' := with_settings self
                  (Settings.set (Settings.update (settings self) kwargs) i) in
   s <- change_frequency self' (series_of self) ;;
   s <- fill_before self' s ;;
   s <- fill_after self' s ;;
   s <- normalize self' s ;;
   ret (_update_inplace self' s)).
Proof.
  unfold update_series.
  replace (Settings.set (Settings.update (settings self) kwargs) i)
    with (Settings.update (settings self) (kwargs ++ [i]))
    by (rewrite update_app; reflexivity).
  destruct kwargs; reflexivity.
Qed.

Lemma change_frequency_ignores_norm self st n1 n2 s :
  change_frequency (with_settings self (Settings.set st (Settings.Knorm n1))) s
  = change_frequency
      (with_settings self (Settings.set st (Settings.Knorm n2))) s.
Proof. destruct self, st. reflexivity. Qed.

Lemma fill_before_ignores_norm self st n1 n2 s :
  fill_before (with_settings self (Settings.set st (Settings.Knorm n1))) s
  = fill_before (with_settings self (Settings.set st (Settings.Knorm n2))) s.
Proof. destruct self, st. reflexivity. Qed.

Lemma fill_after_ignores_norm self st n1 n2 s :
  fill_after (with_settings self (Settings.set st (Settings.Knorm n1))) s
  = fill_after (with_settings self (Settings.set st (Settings.Knorm n2))) s.
Proof. destruct self, st. reflexivity. Qed.

Lemma normalize_cases self s :
  exists s', normalize self s = Done s' [] /\ index s' = index s /\
             (is_str (Settings.norm (settings self)) "mean" = false -> s' = s).
Proof.
  unfold normalize.
  destruct (Settings.norm (settings self)) eqn:E;
    try (exists s; repeat split; reflexivity).
  all: destruct (is_str _ "mean") eqn:Em;
    [ eexists; split; [reflexivity|]; split;
      [apply index_subtract | discriminate]
    | exists s; repeat split; reflexivity ].
Qed.

(** X14.  The [norm] option touches values only.  Compare an update whose
    last keyword argument sets [norm] to [None] with the same update setting
    it to anything else: where the first succeeds so does the second, with
    the same cautions and the same timestamps in the result; a [norm] other
    than "mean" gives the same rows as well and is not reported.  Where the
    first fails, the second fails in the same way. *)
Theorem norm_changes_values_only
    (self : TimeSeries) (kwargs : list Settings.item) (n : Policy) :
  match update_series self (kwargs ++ [Settings.Knorm PNone]) with
  | Done self1 w1 =>
      exists self2,
        update_series self (kwargs ++ [Settings.Knorm n]) = Done self2 w1 /\
        index (self_rows self2) = index (self_rows self1) /\
        (is_str n "mean" = false -> self_rows self2 = self_rows self1)
  | Raised e => update_series self (kwargs ++ [Settings.Knorm n]) = Raised e
  end.
Proof.
  rewrite !update_series_last. cbv zeta.
  set (stK := Settings.update (settings self) kwargs).
  rewrite (change_frequency_ignores_norm self stK PNone n).
  destruct (change_frequency _ _) as [a wa|e]; [|reflexivity].
  rewrite !bind_Done.
  rewrite (fill_before_ignores_norm self stK PNone n).
  destruct (fill_before _ a) as [b wb|e]; [|reflexivity].
  rewrite !bind_Done.
  rewrite (fill_after_ignores_norm self stK PNone n).
  destruct (fill_after _ b) as [c wc|e]; [|reflexivity].
  rewrite !bind_Done.
  assert (E1 : normalize
                 (with_settings self (Settings.set stK (Settings.Knorm PNone)))
                 c = Done c []).
  { destruct self, stK. reflexivity. }
  rewrite E1, bind_Done. unfold ret.
  destruct (normalize_cases
              (with_settings self (Settings.set stK (Settings.Knorm n))) c)
    as [c' [E2 [Hidx Hsame]]].
  rewrite E2, bind_Done.
  eexists. split; [reflexivity|]. split; [exact Hidx|].
  intros Hn. cbn [_update_inplace self_rows]. apply Hsame.
  destruct self, stK. exact Hn.
Qed.
